(** * Verification of the drcov coverage analyser ([analyze_drcov.py])

    A shallow embedding of [parse_drcov_file] and of the stages it is made
    of: locating the ["BB Table:"] marker, reading the module table,
    decoding the binary basic-block records, aggregating the covered bytes
    of the target module, the export hit test and the gap report.

    Conventions.
    - A Python [bytes] object and a Python [str] are both lists of [ascii]
      code units; decoding the text prologue is the identity on them (every
      literal the analyser searches for is ASCII).
    - A Python [int] is a [Z]; an index into a buffer is a [nat].
    - A Python [set] of integers is a [gset Z]; a [dict] whose iteration
      order matters is an association list in insertion order.
    - The built-ins [int], [str.strip], [str.split()] and [str.isdigit] are
      parameters of the text stages, with an ASCII instance to run the
      model on concrete traces; the two functions that call [objdump] are
      represented by the values they return.
    - Floating-point values are not computed: a percentage is kept as the
      pair of integers it is the quotient of. A division raises
      [ZeroDivisionError] when its divisor is zero and [OverflowError] when
      an integer operand, or the quotient of two integers, is beyond the
      range of a float; the result of [len] always fits a float.
    - Integers are converted from and to text at any length: CPython's
      configurable bound on the number of decimal digits of such a
      conversion ([sys.set_int_max_str_digits]) is taken as switched off.
    - What the analyser prints is kept as a list of messages, so that the
      stages that ran can be read off the output. *)

From Stdlib Require Import ZArith Ascii String List Lia.
From Equations Require Import Equations.
From Equations.Prop Require Import Logic.
From stdpp Require Import base tactics option list numbers strings gmap sets sorting.

Local Open Scope Z_scope.

Set Warnings "-clear-no-such-hyp".

(** ** Bytes and [struct.unpack_from] *)

Definition byte_val (b : ascii) : Z := Z.of_N (N_of_ascii b).

Definition byte_of (v : Z) : ascii := ascii_of_N (Z.to_N (v mod 256)).

(** Little-endian value of a run of bytes. *)
Fixpoint le_value (bs : list ascii) : Z :=
  match bs with
  | [] => 0
  | b :: bs' => byte_val b + 256 * le_value bs'
  end.

(** Little-endian layout of [v] on [width] bytes ([struct.pack] with a
    ["<"] format). *)
Fixpoint le_bytes (width : nat) (v : Z) : list ascii :=
  match width with
  | O => []
  | S w => byte_of v :: le_bytes w (v / 256)
  end.

(** [struct.unpack_from(fmt, buffer, offset)[0]] for an unsigned
    little-endian field of [width] bytes; [None] stands for [struct.error]
    (the buffer is too short). *)
Definition unpack_from (width : nat) (buffer : list ascii) (offset : nat)
  : option Z :=
  let field := take width (drop offset buffer) in
  if decide (length field = width) then Some (le_value field) else None.

(** ["<I"] and ["<H"]. *)
Definition fmt_I : nat := 4%nat.
Definition fmt_H : nat := 2%nat.

(** ** Basic-block records *)

(** An element of [bb_entries]. *)
Record BasicBlockRecord := mkBB {
  bb_module_id : Z;
  bb_offset : Z;
  bb_size : Z
}.

(** An element of [target_bbs]. *)
Record TargetBlock := mkTB {
  tb_offset : Z;
  tb_size : Z
}.

Global Instance BasicBlockRecord_eq_dec : EqDecision BasicBlockRecord.
Proof. solve_decision. Defined.

Global Instance TargetBlock_eq_dec : EqDecision TargetBlock.
Proof. solve_decision. Defined.

(** [for i in range(size): target_bytes_covered.add(start_offset + i)] *)
Definition add_block (covered : gset Z) (start_offset size : Z) : gset Z :=
  foldl (fun s i => {[ start_offset + i ]} ∪ s) covered (seqZ 0 size).

(** The state of the decoding loop. *)
Record decode_state := mkDS {
  ds_offset : nat;
  bb_entries : list BasicBlockRecord;
  target_bbs : list TargetBlock;
  target_bytes_covered : gset Z
}.

Definition entry_size : nat := 8%nat.

Definition decode_init : decode_state :=
  mkDS 0 [] [] ∅.

(** The loop test:
    [offset + entry_size <= len(binary_data) and len(bb_entries) < bb_count] *)
Definition decode_cond (binary_data : list ascii) (bb_count : Z)
    (st : decode_state) : bool :=
  bool_decide (ds_offset st + entry_size <= length binary_data)%nat
  && bool_decide (Z.of_nat (length (bb_entries st)) < bb_count).

(** What the loop body does with the three decoded fields: append to
    [bb_entries] and, for a record of the target module, append to
    [target_bbs] and add its bytes to [target_bytes_covered]; then
    [offset += entry_size]. *)
Definition push_entry (target_id : Z) (st : decode_state)
    (r : BasicBlockRecord) : decode_state :=
  let entries := bb_entries st ++ [r] in
  if decide (bb_module_id r = target_id) then
    mkDS (ds_offset st + entry_size) entries
      (target_bbs st ++ [mkTB (bb_offset r) (bb_size r)])
      (add_block (target_bytes_covered st) (bb_offset r) (bb_size r))
  else
    mkDS (ds_offset st + entry_size) entries
      (target_bbs st) (target_bytes_covered st).

(** One run of the loop body; [None] is the [except struct.error: break]. *)
Definition decode_body (binary_data : list ascii) (target_id : Z)
    (st : decode_state) : option decode_state :=
  match unpack_from fmt_I binary_data (ds_offset st),
        unpack_from fmt_H binary_data (ds_offset st + 4),
        unpack_from fmt_H binary_data (ds_offset st + 6) with
  | Some start_offset, Some sz, Some mid =>
      Some (push_entry target_id st (mkBB mid start_offset sz))
  | _, _, _ => None
  end.

(** One turn of the [while] loop: [None] when the loop is left, either by
    its test or by the [break]. *)
Definition decode_step (binary_data : list ascii) (bb_count target_id : Z)
    (st : decode_state) : option decode_state :=
  if decode_cond binary_data bb_count st
  then decode_body binary_data target_id st
  else None.

(** The [while] loop of [parse_drcov_file]. *)
Equations? decode_loop (binary_data : list ascii) (bb_count target_id : Z)
    (st : decode_state) : decode_state
    by wf (length binary_data - ds_offset st)%nat lt :=
  decode_loop binary_data bb_count target_id st
    with inspect (decode_step binary_data bb_count target_id st) := {
    | exist _ None _ := st
    | exist _ (Some st') Hb := decode_loop binary_data bb_count target_id st' }.
Proof.
  unfold decode_step, decode_cond in Hb.
  destruct (bool_decide (_ <= _)%nat) eqn:Hlen; simpl in Hb; [|discriminate].
  apply bool_decide_eq_true in Hlen.
  destruct (bool_decide _); [|discriminate].
  unfold decode_body in Hb.
  repeat case_match; try discriminate.
  injection Hb as <-. unfold push_entry, entry_size in *.
  case_decide; simpl; lia.
Qed.

Definition decode (binary_data : list ascii) (bb_count target_id : Z)
  : decode_state :=
  decode_loop binary_data bb_count target_id decode_init.

(** The records written as a binary stream: [struct.pack("<IHH", offset,
    size, module_id)] for each of them. *)
Definition encode_record (r : BasicBlockRecord) : list ascii :=
  le_bytes fmt_I (bb_offset r) ++ le_bytes fmt_H (bb_size r)
  ++ le_bytes fmt_H (bb_module_id r).

Definition encode_records (rs : list BasicBlockRecord) : list ascii :=
  concat (map encode_record rs).

(** A record whose fields fit their [uint32]/[uint16] slots. *)
Definition well_formed_record (r : BasicBlockRecord) : Prop :=
  0 <= bb_offset r < 2 ^ 32 /\ 0 <= bb_size r < 2 ^ 16
  /\ 0 <= bb_module_id r < 2 ^ 16.

(** The records of the target module, as [target_bbs] keeps them. *)
Definition target_blocks (target_id : Z) (rs : list BasicBlockRecord)
  : list TargetBlock :=
  map (fun r => mkTB (bb_offset r) (bb_size r))
      (filter (fun r => bb_module_id r = target_id) rs).

(** Aggregation of blocks into a covered set. *)
Definition cover (covered : gset Z) (bbs : list TargetBlock) : gset Z :=
  foldl (fun s bb => add_block s (tb_offset bb) (tb_size bb)) covered bbs.

(** Runs of the loop: the reflexive-transitive closure of one turn. *)
Definition decode_steps (binary_data : list ascii) (bb_count target_id : Z)
  : relation decode_state :=
  rtc (fun st st' => decode_step binary_data bb_count target_id st = Some st').

(** The record laid out at position [i] of a binary stream: bytes 0-3 of
    its eight bytes are the offset, bytes 4-5 the size, bytes 6-7 the
    module id, all little-endian. *)
Definition record_at (binary_data : list ascii) (i : nat) : BasicBlockRecord :=
  let chunk := take entry_size (drop (entry_size * i) binary_data) in
  mkBB (le_value (take 2 (drop 6 chunk)))
       (le_value (take 4 chunk))
       (le_value (take 2 (drop 4 chunk))).

(** The bytes of a block, [offset .. offset + size - 1]. *)
Definition block_bytes (bb : TargetBlock) : list Z :=
  seqZ (tb_offset bb) (tb_size bb).

(** The offset is always eight times the number of records read, and no
    more records are read than the count and the buffer allow. *)
Definition decode_inv (d : list ascii) (c : Z) (st : decode_state) : Prop :=
  ds_offset st = (entry_size * length (bb_entries st))%nat
  /\ Z.of_nat (length (bb_entries st))
     <= Z.max 0 (Z.min c (Z.of_nat (length d) / 8)).

(** Every record read so far is the one laid out at its position. *)
Definition entries_inv (d : list ascii) (st : decode_state) : Prop :=
  ds_offset st = (entry_size * length (bb_entries st))%nat
  /\ forall i r, bb_entries st !! i = Some r -> r = record_at d i.

(** ** Sorting, [min] and [max] *)

(** [sorted(l, key=key)] and [l.sort(key=key)]: Python's sort is stable,
    and a stable sort has one possible result, the one this insertion sort
    computes (an element goes in front of the first element whose key is
    not smaller, so that among equal keys the original order is kept). *)
Fixpoint insert_by {A} (key : A -> Z) (x : A) (l : list A) : list A :=
  match l with
  | [] => [x]
  | y :: l' =>
      if decide (key x <= key y) then x :: l else y :: insert_by key x l'
  end.

Definition py_sorted {A} (key : A -> Z) (l : list A) : list A :=
  foldr (insert_by key) [] l.

(** [min(l)] and [max(l)]; [None] stands for the [ValueError] on an empty
    sequence. *)
Definition py_min (l : list Z) : option Z :=
  match l with
  | [] => None
  | x :: l' => Some (foldl Z.min x l')
  end.

Definition py_max (l : list Z) : option Z :=
  match l with
  | [] => None
  | x :: l' => Some (foldl Z.max x l')
  end.

(** ** The export table *)

(** [export_addrs]: the dict of function name to RVA returned by
    [get_export_addresses], in insertion order. *)
Abbreviation export_table := (list (string * Z)).

(** [name in export_addrs] and [export_addrs[name]]. *)
Fixpoint dict_get (export_addrs : export_table) (name : string) : option Z :=
  match export_addrs with
  | [] => None
  | (k, v) :: rest => if decide (k = name) then Some v else dict_get rest name
  end.

Definition EXPORT_FUNCTIONS : list string :=
  [ "Aud_InitDll"; "Aud_GetInterfaceVersion"; "Aud_GetDllVersion";
    "Aud_OpenGetFile"; "Aud_CloseGetFile"; "Aud_GetNumberOfFiles";
    "Aud_GetNumberOfChannels"; "Aud_FileExistsW";
    "Aud_OpenPutFile"; "Aud_ClosePutFile"; "Aud_PutNumberOfChannels";
    "Aud_MakeDirW";
    "Aud_GetChannelDataDoubles"; "Aud_GetChannelDataOriginal";
    "Aud_PutChannelDataDoubles"; "Aud_PutChannelDataOriginal";
    "Aud_GetFileProperties"; "Aud_GetChannelProperties";
    "Aud_PutFileProperties"; "Aud_PutChannelProperties";
    "Aud_GetFileHeaderOriginal"; "Aud_PutFileHeaderOriginal";
    "Aud_GetString"; "Aud_PutString";
    "Aud_TextFileAOpenW"; "Aud_TextFileAClose"; "Aud_ReadLineAInFile";
    "Aud_GetLastWarnings"; "Aud_GetErrDescription" ]%string.

(** ** The export hit test *)

(** [any(abs(bb["offset"] - func_addr) < 0x100 for bb in target_bbs)] *)
Definition func_hit (target_bbs : list TargetBlock) (func_addr : Z) : bool :=
  existsb (fun bb => bool_decide (Z.abs (tb_offset bb - func_addr) < 256))
          target_bbs.

(** The three lines the export loop can print for a name. *)
Inductive export_status := Hit | NotHit | NotFound.

Global Instance export_status_eq_dec : EqDecision export_status.
Proof. solve_decision. Defined.

Definition export_status_of (export_addrs : export_table)
    (target_bbs : list TargetBlock) (func_name : string) : export_status :=
  match dict_get export_addrs func_name with
  | Some func_addr => if func_hit target_bbs func_addr then Hit else NotHit
  | None => NotFound
  end.

(** The loop over [EXPORT_FUNCTIONS]: [(exports_hit, exports_missed)]. *)
Definition export_loop (export_addrs : export_table)
    (target_bbs : list TargetBlock) (names : list string)
  : Z * list string :=
  foldl (fun '(exports_hit, exports_missed) func_name =>
           match export_status_of export_addrs target_bbs func_name with
           | Hit => (exports_hit + 1, exports_missed)
           | NotHit | NotFound => (exports_hit, exports_missed ++ [func_name])
           end)
        (0, []) names.

(** ** The application-code window and its gaps *)

(** [export_min] and [export_max] (with the 0x200 allowance), for a
    non-empty table. *)
Definition export_window (export_addrs : export_table) : option (Z * Z) :=
  match py_min (map snd export_addrs), py_max (map snd export_addrs) with
  | Some lo, Some hi => Some (lo, hi + 512)
  | _, _ => None
  end.

(** The bytes of the target blocks that fall inside the window. *)
Definition app_bytes_covered (target_bbs : list TargetBlock)
    (export_min export_max : Z) : gset Z :=
  foldl (fun s bb =>
           foldl (fun s i =>
                    let addr := tb_offset bb + i in
                    if decide (export_min <= addr < export_max)
                    then {[ addr ]} ∪ s else s)
                 s (seqZ 0 (tb_size bb)))
        ∅ target_bbs.

(** [range(a, b)] *)
Definition py_range (a b : Z) : list Z := seqZ a (b - a).

(** [sorted(all_export_addrs - app_bytes_covered)] *)
Definition uncovered (export_min export_max : Z) (covered : gset Z)
  : list Z :=
  let all_export_addrs : gset Z := list_to_set (py_range export_min export_max) in
  py_sorted id (elements (all_export_addrs ∖ covered)).

(** A gap is the tuple [(gap_start, gap_end, length)]. *)
Abbreviation gap := (Z * Z * Z)%type.

Definition gap_start (g : gap) : Z := g.1.1.
Definition gap_end (g : gap) : Z := g.1.2.
Definition gap_length (g : gap) : Z := g.2.

(** One turn of the grouping loop on [(gaps, gap_start, gap_end)]. *)
Definition group_step (st : list gap * Z * Z) (addr : Z) : list gap * Z * Z :=
  let '(gaps, gap_start, gap_end) := st in
  if decide (addr = gap_end + 1) then (gaps, gap_start, addr)
  else (gaps ++ [(gap_start, gap_end, gap_end - gap_start + 1)], addr, addr).

(** The grouping of consecutive uncovered addresses into ranges; nothing
    is computed when [uncovered] is empty. *)
Definition group_gaps (uncovered : list Z) : list gap :=
  match uncovered with
  | [] => []
  | first :: rest =>
      let '(gaps, gap_start, gap_end) := foldl group_step ([], first, first) rest in
      gaps ++ [(gap_start, gap_end, gap_end - gap_start + 1)]
  end.

(** [gaps.sort(key=lambda x: -x[2])] after the grouping. *)
Definition coverage_gaps (export_min export_max : Z) (covered : gset Z)
  : list gap :=
  py_sorted (fun g => - gap_length g)
            (group_gaps (uncovered export_min export_max covered)).

(** [sorted(export_addrs.items(), key=lambda x: x[1])] *)
Definition sorted_exports (export_addrs : export_table) : export_table :=
  py_sorted snd export_addrs.

(** The scan for the function containing [start], from index [j] on;
    [rest] is what is left of [sorted_exports] at index [j]. *)
Fixpoint containing_func_from (sorted_exports : export_table) (start : Z)
    (j : nat) (rest : export_table) : string :=
  match rest with
  | [] => "unknown"
  | (fname, faddr) :: rest' =>
      if decide (faddr <= start) then
        match sorted_exports !! (j + 1)%nat with
        | Some (_, next) =>
            if decide (next > start) then fname
            else containing_func_from sorted_exports start (j + 1) rest'
        | None => fname
        end
      else containing_func_from sorted_exports start (j + 1) rest'
  end.

Definition containing_func (sorted_exports : export_table) (start : Z)
  : string :=
  containing_func_from sorted_exports start 0 sorted_exports.

(** The lines of the "Largest Coverage Gaps" listing: the first ten gaps,
    each with the function it is attributed to. *)
Definition gap_report (export_addrs : export_table) (gaps : list gap)
  : list (gap * string) :=
  map (fun g => (g, containing_func (sorted_exports export_addrs) (gap_start g)))
      (take 10 gaps).

(** The grouping loop seen from the front of the list: the ranges produced
    from a current range [gap_start..gap_end] and the addresses still to
    come. Used to reason about [group_gaps]. *)
Fixpoint runs (gap_start gap_end : Z) (rest : list Z) : list gap :=
  match rest with
  | [] => [(gap_start, gap_end, gap_end - gap_start + 1)]
  | addr :: rest' =>
      if decide (addr = gap_end + 1) then runs gap_start addr rest'
      else (gap_start, gap_end, gap_end - gap_start + 1) :: runs addr addr rest'
  end.

(** A range covers the address [a]. *)
Definition in_gap (a : Z) (g : gap) : Prop := gap_start g <= a <= gap_end g.

(** Two ranges that follow each other with at least one address between. *)
Definition gap_sep (g1 g2 : gap) : Prop := gap_end g1 + 1 < gap_start g2.

(** A range with its bounds in order and its length field right. *)
Definition gap_ok (g : gap) : Prop :=
  gap_start g <= gap_end g /\ gap_length g = gap_end g - gap_start g + 1.

(** ** Text and byte strings *)

(** A [bytes] object or a [str], as its list of code units. *)
Abbreviation str := (list ascii).

(** A literal. *)
Definition lit (s : string) : str := list_ascii_of_string s.

(** [s.startswith(prefix)] *)
Fixpoint startswith (s prefix : str) : bool :=
  match prefix, s with
  | [], _ => true
  | _ :: _, [] => false
  | p :: prefix', c :: s' =>
      if decide (p = c) then startswith s' prefix' else false
  end.

(** [s.find(sub)]; [None] stands for the result [-1]. *)
Fixpoint find (s sub : str) : option nat :=
  match s with
  | [] => if startswith [] sub then Some 0%nat else None
  | _ :: s' => if startswith s sub then Some 0%nat else S <$> find s' sub
  end.

(** [s.find(sub, start)] for [0 <= start]. *)
Definition find_from (s sub : str) (start : nat) : option nat :=
  if decide (start <= length s)%nat
  then (fun i => (start + i)%nat) <$> find (drop start s) sub
  else None.

(** [sub in s] *)
Definition contains (s sub : str) : bool :=
  match find s sub with Some _ => true | None => false end.

(** [s[a:b]] for [0 <= a] and [0 <= b]. *)
Definition slice (s : str) (a b : nat) : str := take (b - a) (drop a s).

(** [s.split(sep)] for a non-empty separator: [cur] is the piece being
    read, in reverse, and [skip] the number of code units of a separator
    occurrence still to pass over. *)
Fixpoint split_go (sep s : str) (skip : nat) (cur : str) : list str :=
  match s with
  | [] => [reverse cur]
  | c :: s' =>
      match skip with
      | S k => split_go sep s' k cur
      | O =>
          if startswith s sep
          then reverse cur :: split_go sep s' (length sep - 1) []
          else split_go sep s' 0 (c :: cur)
      end
  end.

Definition split (s sep : str) : list str := split_go sep s 0 [].

(** ASCII lower-casing, used to state case-insensitive matching. *)
Definition lower_char (c : ascii) : ascii :=
  let n := nat_of_ascii c in
  if decide (65 <= n <= 90)%nat then ascii_of_nat (n + 32) else c.

Definition lower (s : str) : str := map lower_char s.

(** ** ASCII instances of the text built-ins

    These are the built-ins restricted to ASCII text; they instantiate the
    parameters of the text stages on concrete traces. *)

(** ASCII white space, as [str.isspace] has it. *)
Definition ascii_isspace (c : ascii) : bool :=
  let n := nat_of_ascii c in
  bool_decide (n = 32 \/ 9 <= n <= 13 \/ 28 <= n <= 31)%nat.

Definition ascii_isdigit (c : ascii) : bool :=
  let n := nat_of_ascii c in bool_decide (48 <= n <= 57)%nat.

Fixpoint lstrip (s : str) : str :=
  match s with
  | c :: s' => if ascii_isspace c then lstrip s' else s
  | [] => []
  end.

(** [s.strip()] *)
Definition ascii_strip (s : str) : str :=
  reverse (lstrip (reverse (lstrip s))).

(** [s.split()]: the maximal runs of non-space code units. *)
Fixpoint words_go (s : str) (cur : str) : list str :=
  match s with
  | [] => match cur with [] => [] | _ => [reverse cur] end
  | c :: s' =>
      if ascii_isspace c
      then match cur with
           | [] => words_go s' []
           | _ => reverse cur :: words_go s' []
           end
      else words_go s' (c :: cur)
  end.

Definition ascii_words (s : str) : list str := words_go s [].

(** The value of a digit in a base up to 16. *)
Definition digit_value (c : ascii) : option Z :=
  let n := nat_of_ascii c in
  if decide (48 <= n <= 57)%nat then Some (Z.of_nat n - 48)
  else if decide (97 <= n <= 102)%nat then Some (Z.of_nat n - 87)
  else if decide (65 <= n <= 70)%nat then Some (Z.of_nat n - 55)
  else None.

Fixpoint digits_value (base : Z) (acc : Z) (s : str) : option Z :=
  match s with
  | [] => Some acc
  | c :: s' =>
      if decide (c = "_"%char) then
        (* a digit-group underscore: a digit must follow *)
        match s' with
        | [] => None
        | c' :: _ =>
            if decide (c' = "_"%char) then None else digits_value base acc s'
        end
      else
        match digit_value c with
        | Some d => if decide (d < base) then digits_value base (base * acc + d) s'
                    else None
        | None => None
        end
  end.

(** A run of digits, with single underscores between them only. *)
Definition unsigned_value (base : Z) (s : str) : option Z :=
  match s with
  | [] => None
  | c :: _ => if decide (c = "_"%char) then None else digits_value base 0 s
  end.

(** [int(s, base)] for base 10 or 16 on ASCII text: optional white space
    around, an optional sign, in base 16 an optional ["0x"] prefix, which
    one underscore may follow, then digits. [None] stands for
    [ValueError]. *)
Definition ascii_int (base : Z) (s : str) : option Z :=
  let body (t : str) : option Z :=
    if bool_decide (base = 16) && (startswith t (lit "0x") || startswith t (lit "0X"))
    then unsigned_value base
           match drop 2 t with
           | c :: t' => if decide (c = "_"%char) then t' else c :: t'
           | [] => []
           end
    else unsigned_value base t in
  match ascii_strip s with
  | "-"%char :: t => Z.opp <$> body t
  | "+"%char :: t => body t
  | t => body t
  end.

(** ** Outcomes, diagnostics and the report *)

(** The exceptions that can leave [parse_drcov_file]. *)
Inductive exn := ValueError | IndexError | ZeroDivisionError | OverflowError.

Inductive outcome (A : Type) :=
| Value (a : A)
| Raise (e : exn).
Arguments Value {A} a.
Arguments Raise {A} e.

(** A percentage [100.0 * num / den], kept as its exact operands, or the
    constant [0]/[0.0] of the guarded branches. *)
Inductive percent := Pct (num den : Z) | PctZero.

(** A row of the module table, as the dict built for it. *)
Record Module := mkModule {
  mod_id : Z;
  mod_start : Z;
  mod_end : Z;
  mod_size : Z;
  mod_path : str
}.

(** The lines printed on standard output, one constructor per message
    (or per block of messages printed together), with the values shown.
    [FoundTarget] is the three lines that announce a target row;
    [FoundTargetUnsized] is the first two of them, printed when the third
    (the size line) cannot be formatted. *)
Inductive diag :=
| FailNoMarker
| FoundTarget (m : Module)
| FoundTargetUnsized (m : Module)
| FailNoTarget
| TotalBlocks (bb_count : Z)
| ParsedEntries (entries target_blocks_n bytes : nat)
| UsingLocalDll (path : str)
| TextSection (text_vma code_section_size : Z)
| CoverageLines (dll_size code_section_size : Z) (of_total of_code : percent)
| ExportLine (func_name : string) (status : export_status)
| ExportCoverage (exports_hit : Z) (total : nat) (coverage : percent)
| BlockStats (min_offset max_offset min_size max_size : option Z)
             (sum_sizes : Z) (n : nat)
| AppCoverage (export_min export_max : Z) (app_bytes : nat) (coverage : percent)
| GapSummary (gaps uncovered_bytes : nat)
| GapLine (g : Z * Z * Z) (containing_func : string).

(** The dict returned by [parse_drcov_file]. *)
Record CoverageReport := mkReport {
  rep_module : Module;
  rep_total_bbs : Z;
  rep_target_bbs : nat;
  rep_bytes_covered : nat;
  rep_coverage_percent : percent;
  rep_app_coverage_percent : percent;
  rep_export_coverage : percent;
  rep_exports_hit : Z;
  rep_exports_total : nat
}.

(** A computation that prints and may raise. *)
Definition run (A : Type) : Type := list diag * outcome A.

Definition ret {A} (a : A) : run A := ([], Value a).
Definition print (d : diag) : run unit := ([d], Value tt).
Definition raise {A} (e : exn) : run A := ([], Raise e).

Definition bind {A B} (m : run A) (k : A -> run B) : run B :=
  match m with
  | (out, Value a) => let '(out', r) := k a in (out ++ out', r)
  | (out, Raise e) => (out, Raise e)
  end.

Notation "x <- m ;; k" := (bind m (fun x => k))
  (at level 90, m at next level, right associativity).
Notation "m ;;; k" := (bind m (fun _ => k))
  (at level 90, right associativity).

(** A [for] loop whose body may raise. *)
Fixpoint for_each {A S} (body : S -> A -> run S) (st : S) (l : list A)
  : run S :=
  match l with
  | [] => ret st
  | x :: l' => st' <- body st x ;; for_each body st' l'
  end.

(** The range of a float. A Python [float] is an IEEE 754 double, and an
    [int] is converted by rounding to nearest, ties to even: the
    conversion raises [OverflowError] when the rounded value would be
    [2 ^ 1024], that is from the midpoint between the largest double and
    [2 ^ 1024] on. *)
Definition float_limit : Z := 2 ^ 1024 - 2 ^ 970.

(** [float(n)] raises [OverflowError]. *)
Definition float_overflows (n : Z) : bool :=
  bool_decide (float_limit <= Z.abs n).

(** [n / d] on two [int]s with [d] not zero raises [OverflowError]: the
    quotient is rounded once, so it overflows when the exact quotient
    reaches [float_limit]. *)
Definition true_div_overflows (n d : Z) : bool :=
  bool_decide (float_limit * Z.abs d <= Z.abs n).

(** [100.0 * num / den] where [num] is the result of [len]: the product
    is a float, [den] is converted to a float, which may overflow, and the
    float division then raises on a zero divisor. *)
Definition percent_of (num den : Z) : run percent :=
  if float_overflows den then raise OverflowError
  else if decide (den = 0) then raise ZeroDivisionError
  else ret (Pct num den).

(** ** The built-ins and the collaborators *)

(** The text built-ins of Python the analyser calls. *)
Class TextBuiltins := {
  py_strip : str -> str;                (* s.strip() *)
  py_int : Z -> str -> option Z;        (* int(s, base); None: ValueError *)
  py_isdigit : ascii -> bool;           (* c.isdigit() *)
  py_words : str -> list str            (* s.split() *)
}.

(** The two functions that call [objdump], by what they return for a
    DLL path. *)
Class Collaborators := {
  get_text_section_info : str -> Z * Z;
  get_export_addresses : str -> list (string * Z)
}.

Definition ascii_builtins : TextBuiltins :=
  {| py_strip := ascii_strip; py_int := ascii_int;
     py_isdigit := ascii_isdigit; py_words := ascii_words |}.

(** ** The module table *)

Definition newline : ascii := ascii_of_nat 10.

Definition TARGET_NAME : str := lit "target.dll".
Definition BB_MARKER : str := lit "BB Table:".

(** [modules], [target_module] and [module_count]. *)
Record table_state := mkTable {
  modules : gmap Z Module;
  target_module : option Module;
  module_count : Z
}.

Definition table_init : table_state := mkTable ∅ None 0.

Section text_stages.
Context `{!TextBuiltins}.

(** The body of the [try]: [None] when [int] raises [ValueError] (or an
    index is out of range), which the [except] clause swallows. *)
Definition parse_row (parts : list str) : option Module :=
  match parts !! 0%nat, parts !! 2%nat, parts !! 3%nat with
  | Some p0, Some p2, Some p3 =>
      match py_int 10 p0, py_int 16 p2, py_int 16 p3 with
      | Some id, Some start, Some end_ =>
          let path := match parts !! 9%nat with
                      | Some p9 => py_strip p9
                      | None => []
                      end in
          Some (mkModule id start end_ (end_ - start) path)
      | _, _, _ => None
      end
  | _, _, _ => None
  end.

(** [line.strip().startswith("0,") or
     (line.strip() and line.strip()[0].isdigit())] *)
Definition looks_like_row (line : str) : bool :=
  startswith (py_strip line) (lit "0,")
  || match py_strip line with
     | c :: _ => py_isdigit c
     | [] => false
     end.

(** The module dict a line gives rise to, if any. *)
Definition module_row (line : str) : option Module :=
  if looks_like_row line then
    let parts := map py_strip (split line (lit ",")) in
    if bool_decide (10 <= length parts)%nat then parse_row parts else None
  else None.

(** ["target.dll" in path or "target.dll" in path] *)
Definition is_target_path (path : str) : bool :=
  contains path TARGET_NAME || contains path TARGET_NAME.

(** One turn of the loop over the lines of the prologue. In the row
    branch the [except] clause catches [ValueError] and [IndexError] only:
    the [OverflowError] of [size/1024] in the size line leaves the loop,
    after the two lines before it have been printed. *)
Definition process_line (st : table_state) (line : str) : run table_state :=
  if startswith line (lit "Module Table:") then
    let parts := split line (lit "count") in
    match parts !! 1%nat with
    | Some p1 =>
        match py_int 10 (py_strip p1) with
        | Some n => ret (mkTable (modules st) (target_module st) n)
        | None => raise ValueError
        end
    | None => ret st
    end
  else
    match module_row line with
    | Some m =>
        let modules' := <[mod_id m := m]> (modules st) in
        if is_target_path (mod_path m) then
          if true_div_overflows (mod_size m) 1024 then
            print (FoundTargetUnsized m) ;;;
            raise OverflowError
          else
            print (FoundTarget m) ;;;
            ret (mkTable modules' (modules' !! mod_id m) (module_count st))
        else ret (mkTable modules' (target_module st) (module_count st))
    | None => ret st
    end.

(** The lines of the text prologue. *)
Definition prologue_lines (content : str) (text_end : nat) : list str :=
  split (py_strip (take text_end content)) [newline].

Definition read_module_table (content : str) (text_end : nat)
  : run table_state :=
  for_each process_line table_init (prologue_lines content text_end).

(** ** The header of the BB table *)

(** [content.find(b"\n", bb_header_start) + 1] *)
Definition bb_header_end (content : str) (text_end : nat) : nat :=
  match find_from content [newline] text_end with
  | Some i => (i + 1)%nat
  | None => 0%nat
  end.

(** The loop over [enumerate(parts)] looking for ["bbs"]. *)
Fixpoint bbs_scan (parts : list str) (i : nat) (rest : list str) : run Z :=
  match rest with
  | [] => ret 0
  | p :: rest' =>
      if bool_decide (p = lit "bbs") && bool_decide (0 < i)%nat then
        match parts !! (i - 1)%nat with
        | Some tok =>
            match py_int 10 tok with
            | Some n => ret n
            | None => raise ValueError
            end
        | None => raise IndexError
        end
      else bbs_scan parts (S i) rest'
  end.

Definition read_bb_count (content : str) (text_end : nat) : run Z :=
  let bb_header := slice content text_end (bb_header_end content text_end) in
  if contains bb_header BB_MARKER then
    let parts := py_words bb_header in bbs_scan parts 0 parts
  else ret 0.
End text_stages.

(** ** [parse_drcov_file] *)

Section analysis.
Context `{!TextBuiltins} `{!Collaborators}.

(** [local_dll_path if local_dll_path else target_module["path"]] *)
Definition dll_path_of (local_dll_path : option str) (target : Module)
  : str :=
  match local_dll_path with
  | Some (c :: p) => c :: p
  | _ => mod_path target
  end.

Definition print_each {A} (line : A -> diag) (l : list A) : run unit :=
  for_each (fun _ x => print (line x)) tt l.

(** The application-code part of the report: coverage of the export
    window and the listing of the largest gaps. *)
Definition app_code_coverage (export_addrs : list (string * Z))
    (target_bbs : list TargetBlock) : run percent :=
  match export_window export_addrs with
  | Some (export_min, export_max) =>
      let app_code_size := export_max - export_min in
      let app := app_bytes_covered target_bbs export_min export_max in
      app_coverage <-
        (if decide (app_code_size > 0)
         then percent_of (Z.of_nat (size app)) app_code_size
         else ret PctZero) ;;
      print (AppCoverage export_min export_max (size app) app_coverage) ;;;
      match uncovered export_min export_max app with
      | [] => ret app_coverage
      | _ :: _ =>
          let gaps := coverage_gaps export_min export_max app in
          print (GapSummary (length gaps)
                   (length (uncovered export_min export_max app))) ;;;
          print_each (fun '(g, f) => GapLine g f)
                     (gap_report export_addrs gaps) ;;;
          ret app_coverage
      end
  | None => ret PctZero
  end.

(** Everything after the module table has given a target module. *)
Definition analyse_target (content : str) (text_end : nat)
    (local_dll_path : option str) (target : Module)
  : run (option CoverageReport) :=
  bb_count <- read_bb_count content text_end ;;
  print (TotalBlocks bb_count) ;;;
  let binary_data := drop (bb_header_end content text_end) content in
  let ds := decode binary_data bb_count (mod_id target) in
  let bbs := target_bbs ds in
  let covered := target_bytes_covered ds in
  print (ParsedEntries (length (bb_entries ds)) (length bbs) (size covered)) ;;;
  let dll_size := mod_size target in
  let dll_path := dll_path_of local_dll_path target in
  match local_dll_path with
  | Some (c :: p) => print (UsingLocalDll (c :: p))
  | _ => ret tt
  end ;;;
  let '(text_vma, code_section_size) := get_text_section_info dll_path in
  print (TextSection text_vma code_section_size) ;;;
  coverage_of_total <- percent_of (Z.of_nat (size covered)) dll_size ;;
  coverage_of_code <- percent_of (Z.of_nat (size covered)) code_section_size ;;
  print (CoverageLines dll_size code_section_size
           coverage_of_total coverage_of_code) ;;;
  let export_addrs := get_export_addresses dll_path in
  print_each (fun f => ExportLine f (export_status_of export_addrs bbs f))
             EXPORT_FUNCTIONS ;;;
  let '(exports_hit, exports_missed) :=
    export_loop export_addrs bbs EXPORT_FUNCTIONS in
  let export_coverage :=
    Pct exports_hit (Z.of_nat (length EXPORT_FUNCTIONS)) in
  print (ExportCoverage exports_hit (length EXPORT_FUNCTIONS)
           export_coverage) ;;;
  match bbs with
  | [] => ret tt
  | _ :: _ =>
      print (BlockStats (py_min (map tb_offset bbs)) (py_max (map tb_offset bbs))
               (py_min (map tb_size bbs)) (py_max (map tb_size bbs))
               (foldr Z.add 0 (map tb_size bbs)) (length bbs))
  end ;;;
  app_coverage <- app_code_coverage export_addrs bbs ;;
  ret (Some (mkReport target bb_count (length bbs) (size covered)
               coverage_of_code app_coverage export_coverage
               exports_hit (length EXPORT_FUNCTIONS))).

(** [parse_drcov_file(filepath, local_dll_path)], on the bytes read from
    [filepath]; the value [None] is the [return None] of the two
    [FAIL] exits. *)
Definition parse_drcov_file (content : str) (local_dll_path : option str)
  : run (option CoverageReport) :=
  match find content BB_MARKER with
  | None => print FailNoMarker ;;; ret None
  | Some text_end =>
      st <- read_module_table content text_end ;;
      match target_module st with
      | None => print FailNoTarget ;;; ret None
      | Some target => analyse_target content text_end local_dll_path target
      end
  end.
End analysis.

(** ** Sample traces *)

(** A module-table row for module [id] spanning [start]..[end_] (given in
    hexadecimal) with the given path. *)
Definition sample_row (id start end_ path : string) : str :=
  lit id ++ lit ",0,0x" ++ lit start ++ lit ",0x" ++ lit end_
  ++ lit ",0,0,0,0,0," ++ lit path ++ [newline].

(** A trace: a module table, the BB-table header with [count] as its
    count token, and the records. *)
Definition sample_trace (rows : list str) (count : string)
    (recs : list BasicBlockRecord) : str :=
  lit "DRCOV VERSION: 2" ++ [newline]
  ++ lit "Module Table: version 2, count 2" ++ [newline]
  ++ concat rows
  ++ lit "BB Table: " ++ lit count ++ lit " bbs" ++ [newline]
  ++ encode_records recs.

(** Collaborators that report a [.text] section of the given size and the
    given export table, whatever the path. *)
Definition sample_collaborators (code_size : Z) (exports : list (string * Z))
  : Collaborators :=
  {| get_text_section_info := fun _ => (4096, code_size);
     get_export_addresses := fun _ => exports |}.

(** ** Rows of the module table, as the line loop sees them *)

Section table_rows.
Context `{!TextBuiltins}.

(** The module dict a line of the prologue contributes: none for a
    ["Module Table:"] header line (the loop [continue]s), otherwise what
    the row branch builds. *)
Definition row_of_line (line : str) : option Module :=
  if startswith line (lit "Module Table:") then None else module_row line.

(** The rows of the table whose path matches, in table order. *)
Definition matching_rows (lines : list str) : list Module :=
  filter (fun m => is_target_path (mod_path m) = true)
         (omap row_of_line lines).
End table_rows.

(** Two traces for the module resolver: one with two rows that both match,
    one whose only row spells the file name in upper case. *)
Definition two_targets_trace : str :=
  sample_trace [sample_row "0" "10000000" "10020000" "C:\first\target.dll";
                sample_row "1" "20000000" "20010000" "C:\second\target.dll"]
               "0" [].

Definition first_target : Module :=
  mkModule 0 268435456 268566528 131072 (lit "C:\first\target.dll").

Definition second_target : Module :=
  mkModule 1 536870912 536936448 65536 (lit "C:\second\target.dll").

Definition upper_case_trace : str :=
  sample_trace [sample_row "0" "10000000" "10020000" "C:\x\TARGET.DLL"] "0" [].


(** ** What a run selected and returned *)

Section observations.
Context `{!TextBuiltins}.

(** The rows of a trace's module table whose path matches. *)
Definition table_matches (content : str) : list Module :=
  match find content BB_MARKER with
  | Some text_end => matching_rows (prologue_lines content text_end)
  | None => []
  end.

(** All the rows of a trace's module table. *)
Definition table_rows (content : str) : list Module :=
  match find content BB_MARKER with
  | Some text_end => omap row_of_line (prologue_lines content text_end)
  | None => []
  end.
End observations.

(** The module of the report a run returned, if it returned one. *)
Definition reported_module (r : run (option CoverageReport)) : option Module :=
  match r.2 with
  | Value (Some rep) => Some (rep_module rep)
  | _ => None
  end.

(** The end-to-end scenario: one module row for [target.dll] at
    0x10000000..0x10020000, one record (offset 0x100, size 0x10, module 0)
    and the export table [{"Aud_InitDll": 0x100}]. *)
Definition scenario_trace : str :=
  sample_trace [sample_row "0" "10000000" "10020000" "C:\lib\target.dll"]
               "1" [mkBB 0 256 16].

Definition scenario_run : run (option CoverageReport) :=
  @parse_drcov_file ascii_builtins
    (sample_collaborators 168232 [("Aud_InitDll"%string, 256)])
    scenario_trace None.

(** The records laid out at the first [n] positions of a binary stream. *)
Definition records_at (binary_data : list ascii) (n : nat)
  : list BasicBlockRecord :=
  map (record_at binary_data) (seq 0 n).

(** The number of records the loop reads. *)
Definition records_read (binary_data : list ascii) (bb_count : Z) : nat :=
  Z.to_nat (Z.min bb_count (Z.of_nat (length binary_data) / Z.of_nat entry_size)).

(** The state is the one obtained by processing, from the initial state,
    the records laid out at the positions read so far. *)
Definition replay_inv (binary_data : list ascii) (target_id : Z)
    (st : decode_state) : Prop :=
  st = foldl (push_entry target_id) decode_init
         (records_at binary_data (length (bb_entries st))).

(** Traces for the exits of the text stages: a module table without a
    matching row, a ["Module Table:"] line with a malformed count, a header
    whose count token is not a number, and a header line that is never
    ended by a newline. *)
Definition other_module_trace : str :=
  sample_trace [sample_row "0" "10000000" "10020000" "C:\lib\other.dll"]
               "0" [].

Definition bad_module_count_trace : str :=
  lit "DRCOV VERSION: 2" ++ [newline]
  ++ lit "Module Table: version 2, count two" ++ [newline]
  ++ sample_row "0" "10000000" "10020000" "C:\lib\target.dll"
  ++ lit "BB Table: 0 bbs" ++ [newline].

Definition bad_bb_count_trace : str :=
  sample_trace [sample_row "0" "10000000" "10020000" "C:\lib\target.dll"]
               "many" [mkBB 0 256 16].

Definition unterminated_header_trace : str :=
  lit "DRCOV VERSION: 2" ++ [newline]
  ++ sample_row "0" "10000000" "10020000" "C:\lib\target.dll"
  ++ lit "BB Table: 1 bbs".

(** ** The two functions that call [objdump] *)

(** What [subprocess.run(["objdump", flag, dll_path], ...)] gives for a
    path: the standard output as text, or [None] when the call raises (no
    such program, time-out). *)
Record Objdump := mkObjdump {
  objdump_h : str -> option str;
  objdump_p : str -> option str
}.

(** The two [WARN] lines. *)
Inductive warning := WarnTextInfo | WarnExports.

(** The value returned when the section lookup fails. *)
Definition TEXT_INFO_FALLBACK : Z * Z := (0, 168232).

(** [exports[name] = addr] on a dict kept in insertion order: a key that
    is present keeps its place and takes the new value, a new key goes at
    the end. *)
Fixpoint dict_set (exports : list (string * Z)) (name : string) (addr : Z)
  : list (string * Z) :=
  match exports with
  | [] => [(name, addr)]
  | (k, v) :: rest =>
      if decide (k = name) then (k, addr) :: rest
      else (k, v) :: dict_set rest name addr
  end.

Section objdump.
Context `{!TextBuiltins}.

(** The loop of [get_text_section_info] over the lines of the output:
    [Value (Some (vma, size))] is its [return], [Value None] the end of the
    loop, and [Raise] the exception of a failed [int]. *)
Fixpoint text_section_scan (lines : list str) : outcome (option (Z * Z)) :=
  match lines with
  | [] => Value None
  | line :: rest =>
      if contains line (lit ".text") then
        let parts := py_words line in
        if bool_decide (4 <= length parts)%nat then
          match parts !! 2%nat, parts !! 3%nat with
          | Some size_hex, Some vma_hex =>
              match py_int 16 vma_hex, py_int 16 size_hex with
              | Some vma, Some size => Value (Some (vma, size))
              | _, _ => Raise ValueError
              end
          | _, _ => Raise IndexError
          end
        else text_section_scan rest
      else text_section_scan rest
  end.

(** [get_text_section_info(dll_path)]: the warnings printed and the pair
    [(start_address, size)] returned. *)
Definition text_section_info (od : Objdump) (dll_path : str)
  : list warning * (Z * Z) :=
  match objdump_h od dll_path with
  | None => ([WarnTextInfo], TEXT_INFO_FALLBACK)
  | Some stdout =>
      match text_section_scan (split stdout [newline]) with
      | Value (Some info) => ([], info)
      | Value None => ([], TEXT_INFO_FALLBACK)
      | Raise _ => ([WarnTextInfo], TEXT_INFO_FALLBACK)
      end
  end.

(** A line of the export listing that the loop skips as a header line. *)
Definition is_listing_header (line : str) : bool :=
  contains line (lit "DLL name:") || contains line (lit "Ordinal base:")
  || contains line (lit "Ordinal").

(** The body of the inner [try] for a line of three words or more: the
    dict after the line. *)
Definition export_entry (exports : list (string * Z)) (parts : list str)
  : list (string * Z) :=
  match parts !! 1%nat with
  | Some rva_str =>
      if startswith rva_str (lit "0x") then
        match py_int 16 rva_str with
        | Some addr =>
            match parts !! 2%nat with
            | Some name =>
                if contains name (lit "@") then exports
                else dict_set exports (string_of_list_ascii name) addr
            | None => exports
            end
        | None => exports
        end
      else exports
  | None => exports
  end.

(** The loop of [get_export_addresses] over the lines of the output, with
    its flag [in_export_table] and the dict built so far. *)
Fixpoint export_scan (lines : list str) (in_export_table : bool)
    (exports : list (string * Z)) : list (string * Z) :=
  match lines with
  | [] => exports
  | line :: rest =>
      if contains line (lit "Export Table:") then export_scan rest true exports
      else if in_export_table then
        if is_listing_header line then export_scan rest in_export_table exports
        else if bool_decide (py_strip line = []) then exports
        else
          let parts := py_words line in
          if bool_decide (3 <= length parts)%nat
          then export_scan rest in_export_table (export_entry exports parts)
          else export_scan rest in_export_table exports
      else export_scan rest in_export_table exports
  end.

(** [get_export_addresses(dll_path)]: the warnings printed and the dict
    returned. *)
Definition export_addresses (od : Objdump) (dll_path : str)
  : list warning * list (string * Z) :=
  match objdump_p od dll_path with
  | None => ([WarnExports], [])
  | Some stdout => ([], export_scan (split stdout [newline]) false [])
  end.

(** The collaborators of [parse_drcov_file] when they are these two
    functions. *)
Definition objdump_collaborators (od : Objdump) : Collaborators :=
  {| get_text_section_info := fun dll_path => (text_section_info od dll_path).2;
     get_export_addresses := fun dll_path => (export_addresses od dll_path).2 |}.
End objdump.

(** Sample outputs of [objdump -h] and [objdump -p]. *)
Definition sample_sections : str :=
  lit "target.dll:     file format pei-i386" ++ [newline]
  ++ [newline]
  ++ lit "Sections:" ++ [newline]
  ++ lit "Idx Name          Size      VMA       LMA       File off  Algn"
  ++ [newline]
  ++ lit "  0 .text         00029128  10001000  10001000  00000400  2**4"
  ++ [newline]
  ++ lit "  1 .rdata        00007f2e  1002b000  1002b000  00029600  2**2"
  ++ [newline].

Definition sample_exports : str :=
  lit "The Export Tables (interpreted .edata section contents)" ++ [newline]
  ++ [newline]
  ++ lit "Export Table:" ++ [newline]
  ++ lit "DLL name: target.dll" ++ [newline]
  ++ lit "Ordinal base: 1" ++ [newline]
  ++ lit "    Ordinal   RVA  Name" ++ [newline]
  ++ lit "       1   0x35c0  Aud_CloseGetFile" ++ [newline]
  ++ lit "       2   0x35c0  _Aud_CloseGetFile@4" ++ [newline]
  ++ lit "       3   0x1000  Aud_InitDll" ++ [newline]
  ++ [newline]
  ++ lit "       4   0x2000  Aud_AfterBlank" ++ [newline].

Definition sample_objdump : Objdump :=
  {| objdump_h := fun _ => Some sample_sections;
     objdump_p := fun _ => Some sample_exports |}.

Definition no_objdump : Objdump :=
  {| objdump_h := fun _ => None; objdump_p := fun _ => None |}.

Section objdump_lines.
Context `{!TextBuiltins}.

(** A line the section loop passes over: it does not mention [.text], or
    it has fewer than four words. *)
Definition not_text_line (line : str) : Prop :=
  contains line (lit ".text") = false \/ (length (py_words line) < 4)%nat.

(** A line of the export listing that contributes the entry
    [(name, addr)]: it is neither the table header nor a header line of
    the listing nor blank, and its words are an ordinal, an RVA written
    [0x...] whose value is [addr], and an undecorated name. *)
Definition is_export_entry (line : str) (entry : string * Z) : Prop :=
  contains line (lit "Export Table:") = false
  /\ is_listing_header line = false
  /\ py_strip line <> []
  /\ exists rva_str name,
       py_words line !! 1%nat = Some rva_str
       /\ py_words line !! 2%nat = Some name
       /\ startswith rva_str (lit "0x") = true
       /\ py_int 16 rva_str = Some entry.2
       /\ contains name (lit "@") = false
       /\ string_of_list_ascii name = entry.1.

(** A blank line of the listing, on which the loop [break]s. *)
Definition is_blank_line (line : str) : Prop :=
  contains line (lit "Export Table:") = false
  /\ is_listing_header line = false
  /\ py_strip line = [].
(** An entry that a line of the listing accounts for: one of [lines] has
    an RVA written [0x...] with the entry's value as its second word and,
    as its third word, the entry's name, undecorated. *)
Definition from_listing (lines : list str) (entry : string * Z) : Prop :=
  exists line rva_str name,
    line ∈ lines
    /\ contains line (lit "Export Table:") = false
    /\ is_listing_header line = false
    /\ py_words line !! 1%nat = Some rva_str
    /\ py_words line !! 2%nat = Some name
    /\ startswith rva_str (lit "0x") = true
    /\ py_int 16 rva_str = Some entry.2
    /\ contains name (lit "@") = false
    /\ string_of_list_ascii name = entry.1.
(** A line of the listing that contributes nothing: a header line of
    the listing, or a line that is not blank and has fewer than three
    words, or whose second word is not an RVA written [0x...] in base 16,
    or whose third word is a decorated name. *)
Definition is_skipped_line (line : str) : Prop :=
  contains line (lit "Export Table:") = false
  /\ (is_listing_header line = true
      \/ (py_strip line <> []
          /\ ((length (py_words line) < 3)%nat
              \/ (exists rva_str,
                    py_words line !! 1%nat = Some rva_str
                    /\ (startswith rva_str (lit "0x") = false
                        \/ py_int 16 rva_str = None))
              \/ (exists name,
                    py_words line !! 2%nat = Some name
                    /\ contains name (lit "@") = true)))).

(** The lines of a listing and the table they spell, entry by entry. *)
Inductive listing : list str -> list (string * Z) -> Prop :=
| listing_nil : listing [] []
| listing_entry line entry lines table :
    is_export_entry line entry -> listing lines table ->
    listing (line :: lines) (entry :: table)
| listing_skip line lines table :
    is_skipped_line line -> listing lines table ->
    listing (line :: lines) table.
End objdump_lines.

(** ** Traces with a module beyond the range of a float *)






(* ================================================================== *)
(** * Properties *)
(* ================================================================== *)

(** ** Bytes and the decoding loop *)

Lemma byte_val_range b : 0 <= byte_val b < 256.
Proof.
  unfold byte_val. pose proof (N_ascii_bounded b) as H. lia.
Qed.

Lemma byte_val_of v : byte_val (byte_of v) = v mod 256.
Proof.
  unfold byte_val, byte_of.
  rewrite N_ascii_embedding.
  - rewrite Z2N.id; [reflexivity|]. apply Z.mod_pos_bound. lia.
  - pose proof (Z.mod_pos_bound v 256). lia.
Qed.

Lemma length_le_bytes w v : length (le_bytes w v) = w.
Proof. revert v. induction w; intros; simpl; [reflexivity|]. by rewrite IHw. Qed.

Lemma le_value_le_bytes w v :
  0 <= v < 256 ^ Z.of_nat w -> le_value (le_bytes w v) = v.
Proof.
  revert v. induction w as [|w IH]; intros v Hv.
  - simpl in *. lia.
  - cbn [le_bytes le_value]. rewrite byte_val_of, IH.
    + pose proof (Z.div_mod v 256). lia.
    + rewrite Nat2Z.inj_succ, Z.pow_succ_r in Hv by lia.
      split; [apply Z.div_pos; lia|]. apply Z.div_lt_upper_bound; lia.
Qed.

Lemma unpack_from_app w pre field rest :
  length field = w ->
  unpack_from w (pre ++ field ++ rest) (length pre) = Some (le_value field).
Proof.
  intros Hw. unfold unpack_from.
  rewrite drop_app_length. rewrite take_app_length' by done.
  rewrite decide_True by done. reflexivity.
Qed.

Lemma unpack_from_is_Some w buffer off :
  (off + w <= length buffer)%nat -> is_Some (unpack_from w buffer off).
Proof.
  intros H. unfold unpack_from.
  rewrite decide_True; [eauto|]. rewrite length_take, length_drop. lia.
Qed.

Lemma decode_body_is_Some data tid st :
  (ds_offset st + entry_size <= length data)%nat ->
  is_Some (decode_body data tid st).
Proof.
  intros H. unfold decode_body, entry_size, fmt_I, fmt_H in *.
  destruct (unpack_from_is_Some 4 data (ds_offset st)) as [a ->]; [lia|].
  destruct (unpack_from_is_Some 2 data (ds_offset st + 4)) as [b ->]; [lia|].
  destruct (unpack_from_is_Some 2 data (ds_offset st + 6)) as [c ->]; [lia|].
  eauto.
Qed.

Lemma decode_loop_step d c t st :
  decode_loop d c t st =
  match decode_step d c t st with
  | Some st' => decode_loop d c t st'
  | None => st
  end.
Proof.
  rewrite decode_loop_equation_1. simpl.
  destruct (decode_step d c t st); reflexivity.
Qed.

Lemma decode_loop_run d c t st :
  decode_steps d c t st (decode_loop d c t st)
  /\ decode_step d c t (decode_loop d c t st) = None.
Proof.
  funelim (decode_loop d c t st).
  - match goal with IH : _ /\ _ |- _ => destruct IH as [IH1 IH2] end.
    split; [|exact IH2]. eapply rtc_l; [exact Hb|exact IH1].
  - split; [apply rtc_refl|assumption].
Qed.

Lemma length_encode_record r : length (encode_record r) = entry_size.
Proof. unfold encode_record. rewrite !length_app, !length_le_bytes. reflexivity. Qed.

Lemma length_encode_records rs :
  length (encode_records rs) = (entry_size * length rs)%nat.
Proof.
  induction rs as [|r rs IH]; [reflexivity|].
  unfold encode_records in *. cbn [map concat length].
  rewrite length_app, IH, length_encode_record. unfold entry_size. lia.
Qed.

Lemma decode_body_encoded pre r rest tid st :
  well_formed_record r ->
  ds_offset st = length pre ->
  decode_body (pre ++ encode_record r ++ rest) tid st
  = Some (push_entry tid st r).
Proof.
  intros (Ho & Hs & Hm) Hoff. unfold decode_body, encode_record.
  rewrite Hoff.
  rewrite <- !(assoc_L (++)).
  rewrite (unpack_from_app fmt_I pre) by apply length_le_bytes.
  replace (length pre + 4)%nat with (length (pre ++ le_bytes fmt_I (bb_offset r)))
    by (rewrite length_app, length_le_bytes; reflexivity).
  rewrite (assoc_L (++) pre).
  rewrite (unpack_from_app fmt_H) by apply length_le_bytes.
  replace (length pre + 6)%nat
    with (length ((pre ++ le_bytes fmt_I (bb_offset r)) ++ le_bytes fmt_H (bb_size r)))
    by (rewrite !length_app, !length_le_bytes; unfold fmt_I, fmt_H; lia).
  rewrite (assoc_L (++) (pre ++ _)).
  rewrite (unpack_from_app fmt_H) by apply length_le_bytes.
  rewrite !le_value_le_bytes by (unfold fmt_I, fmt_H; simpl; lia).
  destruct r; reflexivity.
Qed.

Lemma bb_entries_push tid st r :
  bb_entries (push_entry tid st r) = bb_entries st ++ [r].
Proof. unfold push_entry. case_decide; reflexivity. Qed.

Lemma ds_offset_push tid st r :
  ds_offset (push_entry tid st r) = (ds_offset st + entry_size)%nat.
Proof. unfold push_entry. case_decide; reflexivity. Qed.

Lemma bb_entries_foldl_push tid rs st :
  bb_entries (foldl (push_entry tid) st rs) = bb_entries st ++ rs.
Proof.
  revert st. induction rs as [|r rs IH]; intros st; simpl.
  - by rewrite app_nil_r.
  - rewrite IH, bb_entries_push, <- (assoc_L (++)). reflexivity.
Qed.

Lemma decode_loop_encoded rs : forall pre rest c tid st,
  Forall well_formed_record rs ->
  ds_offset st = length pre ->
  Z.of_nat (length (bb_entries st) + length rs) <= c ->
  decode_loop (pre ++ encode_records rs ++ rest) c tid st
  = decode_loop (pre ++ encode_records rs ++ rest) c tid
      (foldl (push_entry tid) st rs).
Proof.
  induction rs as [|r rs IH]; intros pre rest c tid st Hwf Hoff Hc; [reflexivity|].
  apply Forall_cons in Hwf as [Hr Hwf].
  rewrite decode_loop_step.
  assert (decode_step (pre ++ encode_records (r :: rs) ++ rest) c tid st
          = Some (push_entry tid st r)) as ->.
  { unfold decode_step, decode_cond.
    rewrite !bool_decide_eq_true_2.
    - unfold encode_records. cbn [map concat andb].
      rewrite <- (assoc_L (++)). by apply decode_body_encoded.
    - cbn [length] in Hc. lia.
    - rewrite !length_app, length_encode_records. cbn [length].
      unfold entry_size. lia. }
  cbn [foldl].
  unfold encode_records in *. cbn [map concat].
  rewrite <- (assoc_L (++) (encode_record r)), (assoc_L (++) pre).
  apply IH; [done| |].
  - rewrite ds_offset_push, length_app, length_encode_record. lia.
  - rewrite bb_entries_push, length_app. simpl in *. lia.
Qed.

Lemma decode_encoded rs rest tid :
  Forall well_formed_record rs ->
  decode (encode_records rs ++ rest) (Z.of_nat (length rs)) tid
  = foldl (push_entry tid) decode_init rs.
Proof.
  intros Hwf. unfold decode.
  rewrite (decode_loop_encoded rs [] rest) by (done || simpl; lia).
  rewrite decode_loop_step.
  unfold decode_step, decode_cond.
  rewrite bb_entries_foldl_push. simpl.
  rewrite (bool_decide_eq_false_2 (_ < _)) by lia.
  by rewrite andb_false_r.
Qed.
Lemma decode_step_None_cond d c t st :
  decode_step d c t st = None -> decode_cond d c st = false.
Proof.
  unfold decode_step. destruct (decode_cond d c st) eqn:Hc; [|done].
  unfold decode_cond in Hc. apply andb_prop in Hc as [Hlen _].
  apply bool_decide_eq_true in Hlen.
  destruct (decode_body_is_Some d t st Hlen) as [st' ->]. done.
Qed.

Lemma decode_inv_step d c t st st' :
  decode_inv d c st -> decode_step d c t st = Some st' -> decode_inv d c st'.
Proof.
  intros [Hoff Hn]. unfold decode_step, decode_cond.
  destruct (bool_decide _) eqn:H1; [|done].
  destruct (bool_decide (_ < _)) eqn:H2; [|done]. cbn [andb].
  apply bool_decide_eq_true in H1, H2.
  unfold decode_body. repeat case_match; try done.
  intros [= <-]. unfold decode_inv.
  rewrite ds_offset_push, bb_entries_push, length_app. cbn [length].
  unfold entry_size in *. split; [lia|].
  assert (Z.of_nat (length (bb_entries st)) + 1 <= Z.of_nat (length d) / 8).
  { apply Z.div_le_lower_bound; lia. }
  lia.
Qed.

Lemma decode_inv_run d c t st st' :
  decode_inv d c st -> decode_steps d c t st st' -> decode_inv d c st'.
Proof.
  intros Hinv Hrun. induction Hrun as [|st1 st2 st3 Hstep _ IH]; [done|].
  apply IH. eapply decode_inv_step; eauto.
Qed.

Lemma decode_count d c t :
  Z.of_nat (length (bb_entries (decode d c t)))
  = Z.max 0 (Z.min c (Z.of_nat (length d) / 8)).
Proof.
  unfold decode.
  destruct (decode_loop_run d c t decode_init) as [Hrun Hend].
  apply decode_step_None_cond in Hend.
  assert (decode_inv d c decode_init) as Hinit.
  { split; simpl; [done|]. lia. }
  destruct (decode_inv_run _ _ _ _ _ Hinit Hrun) as [Hoff Hn].
  set (fin := decode_loop d c t decode_init) in *.
  unfold decode_cond in Hend. apply andb_false_iff in Hend as [H|H];
    apply bool_decide_eq_false in H.
  - assert (Z.of_nat (length d) / 8 < Z.of_nat (length (bb_entries fin)) + 1).
    { apply Z.div_lt_upper_bound; [lia|]. unfold entry_size in *. lia. }
    lia.
  - lia.
Qed.


Lemma unpack_from_chunk w d off pos :
  (pos + w <= entry_size)%nat ->
  forall v, unpack_from w d (off + pos) = Some v ->
  v = le_value (take w (drop pos (take entry_size (drop off d)))).
Proof.
  intros Hpos v. unfold unpack_from. case_decide as Hlen; [|done].
  intros [= <-]. f_equal.
  rewrite length_take, length_drop in Hlen.
  rewrite <- drop_drop. rewrite skipn_firstn_comm.
  rewrite take_take. f_equal. lia.
Qed.

Lemma decode_body_record_at d t st st' :
  ds_offset st = (entry_size * length (bb_entries st))%nat ->
  decode_body d t st = Some st' ->
  st' = push_entry t st (record_at d (length (bb_entries st))).
Proof.
  intros Hoff. unfold decode_body.
  destruct (unpack_from fmt_I _ _) as [a|] eqn:Ha; [|done].
  destruct (unpack_from fmt_H _ (_ + 4)) as [b|] eqn:Hb; [|done].
  destruct (unpack_from fmt_H _ (_ + 6)) as [c|] eqn:Hc; [|done].
  intros [= <-]. f_equal. unfold record_at. rewrite <- Hoff.
  rewrite <- (Nat.add_0_r (ds_offset st)) in Ha.
  apply unpack_from_chunk in Ha, Hb, Hc; try (unfold fmt_I, fmt_H, entry_size; lia).
  rewrite drop_0 in Ha. by subst.
Qed.

Lemma entries_inv_run d c t st st' :
  entries_inv d st -> decode_steps d c t st st' -> entries_inv d st'.
Proof.
  intros Hinv Hrun. induction Hrun as [|st1 st2 st3 Hstep _ IH]; [done|].
  apply IH. destruct Hinv as [Hoff Hent].
  unfold decode_step in Hstep. destruct (decode_cond _ _ _); [|done].
  apply (decode_body_record_at _ _ _ _ Hoff) in Hstep as ->.
  split.
  - rewrite ds_offset_push, bb_entries_push, length_app. simpl.
    unfold entry_size in *. lia.
  - intros i r. rewrite bb_entries_push.
    intros [Hi|[Hi Hr]]%lookup_app_Some; [by apply Hent|].
    apply list_lookup_singleton_Some in Hr as [Hz <-].
    f_equal. lia.
Qed.

Lemma decode_entries_layout d c t i r :
  bb_entries (decode d c t) !! i = Some r -> r = record_at d i.
Proof.
  destruct (decode_loop_run d c t decode_init) as [Hrun _].
  assert (entries_inv d decode_init) as Hinit by (split; [done|by intros ??]).
  destruct (entries_inv_run _ _ _ _ _ Hinit Hrun) as [_ H]. apply H.
Qed.

(** ** The binary suffix of a trace *)

Lemma find_char_first a c b :
  c ∉ a -> find (a ++ c :: b) [c] = Some (length a).
Proof.
  induction a as [|x a IH]; intros Hc.
  - cbn [app find startswith]. rewrite decide_True by done. by destruct b.
  - apply not_elem_of_cons in Hc as [Hcx Hc].
    cbn [app find startswith]. rewrite decide_False by done.
    by rewrite IH.
Qed.

Lemma trace_binary_data content text_end header binary_data :
  drop text_end content = BB_MARKER ++ header ++ newline :: binary_data ->
  newline ∉ BB_MARKER ++ header ->
  slice content text_end (bb_header_end content text_end)
    = BB_MARKER ++ header ++ [newline]
  /\ drop (bb_header_end content text_end) content = binary_data.
Proof.
  intros Hdrop Hnl.
  assert (text_end <= length content)%nat as Hlen.
  { destruct (decide (text_end <= length content)%nat) as [|Hgt]; [done|].
    rewrite drop_ge in Hdrop by lia. discriminate Hdrop. }
  unfold bb_header_end, find_from, slice.
  rewrite decide_True by done. rewrite Hdrop.
  rewrite (assoc_L (++) BB_MARKER header), find_char_first by done.
  cbn [fmap option_fmap option_map].
  set (k := length (BB_MARKER ++ header)).
  replace (text_end + k + 1 - text_end)%nat with (k + 1)%nat by lia.
  split.
  - rewrite (assoc_L (++) BB_MARKER header).
    change (newline :: binary_data) with ([newline] ++ binary_data).
    rewrite (assoc_L (++) _ [newline]).
    rewrite take_app_length'; [done|]. rewrite length_app. simpl. lia.
  - replace (text_end + k + 1)%nat with (text_end + (k + 1))%nat by lia.
    rewrite <- drop_drop, Hdrop, (assoc_L (++) BB_MARKER header).
    change (newline :: binary_data) with ([newline] ++ binary_data).
    rewrite (assoc_L (++) _ [newline]).
    rewrite drop_app_length'; [done|]. rewrite length_app. simpl. lia.
Qed.

(** Claim C1. A stream that encodes [N] well-formed records, whatever
    follows it, decoded with a header count of [N], gives back exactly those
    [N] records in encoding order; the record at position [i] is read from
    bytes 0-3 (offset), 4-5 (size) and 6-7 (module id) of the [i]-th group
    of eight bytes, little-endian; and in a trace whose marker line is
    followed by that stream, the stream is the binary data handed to the
    decoding loop. *)
Theorem decode_round_trip (recs : list BasicBlockRecord) (rest : list ascii)
    (target_id : Z) :
  Forall well_formed_record recs ->
  let binary_data := encode_records recs ++ rest in
  let st := decode binary_data (Z.of_nat (length recs)) target_id in
  bb_entries st = recs
  /\ length (bb_entries st) = length recs
  /\ (forall i r, recs !! i = Some r -> record_at binary_data i = r)
  /\ (forall content text_end header,
        drop text_end content
          = BB_MARKER ++ header ++ newline :: binary_data ->
        newline ∉ BB_MARKER ++ header ->
        drop (bb_header_end content text_end) content = binary_data).
Proof.
  intros Hwf binary_data st.
  assert (bb_entries st = recs) as Hst.
  { subst st binary_data. rewrite decode_encoded by done.
    by rewrite bb_entries_foldl_push. }
  split; [done|]. split; [by rewrite Hst|]. split.
  - intros i r Hi. symmetry. rewrite <- Hst in Hi.
    by apply decode_entries_layout in Hi.
  - intros content text_end header Hdrop Hnl.
    by apply (trace_binary_data content text_end header binary_data).
Qed.

Lemma decode_round_trip_witness :
  let recs := [mkBB 0 256 16; mkBB 3 70000 2] in
  Forall well_formed_record recs
  /\ bb_entries (decode (encode_records recs) 2 0) = recs.
Proof.
  intros recs.
  assert (Forall well_formed_record recs) as Hwf.
  { repeat constructor; simpl; lia. }
  split; [exact Hwf|].
  pose proof (decode_round_trip recs [] 0 Hwf) as H.
  cbv zeta in H. rewrite app_nil_r in H. exact (proj1 H).
Defined.

(** Claim C7. Decoding stops after exactly
    [min(bb_count, floor(len(binary_data) / 8))] records (none when the
    announced count is negative): the loop is left through its own test,
    never through an error, a trailing group of fewer than eight bytes is
    not read, and the records kept are those laid out in the stream. *)
Theorem decode_stops (binary_data : list ascii) (bb_count target_id : Z) :
  let st := decode binary_data bb_count target_id in
  let available := Z.of_nat (length binary_data) / Z.of_nat entry_size in
  length (bb_entries st) = Z.to_nat (Z.min bb_count available)
  /\ (0 <= bb_count ->
      Z.of_nat (length (bb_entries st)) = Z.min bb_count available)
  /\ decode_cond binary_data bb_count st = false
  /\ forall i r, bb_entries st !! i = Some r -> r = record_at binary_data i.
Proof.
  intros st available.
  assert (0 <= available) by (apply Z.div_pos; unfold entry_size; lia).
  pose proof (decode_count binary_data bb_count target_id) as Hcount.
  fold st in Hcount. change 8 with (Z.of_nat entry_size) in Hcount.
  fold available in Hcount.
  split; [lia|]. split; [lia|]. split.
  - apply (decode_step_None_cond _ _ target_id).
    apply decode_loop_run.
  - apply decode_entries_layout.
Qed.

Lemma decode_stops_witness :
  let binary_data :=
    encode_records [mkBB 0 256 16; mkBB 3 70000 2] ++ map byte_of [1; 2; 3] in
  length (bb_entries (decode binary_data 5 0)) = 2%nat
  /\ Z.of_nat (length (bb_entries (decode binary_data 5 0)))
     = Z.min 5 (Z.of_nat (length binary_data) / Z.of_nat entry_size).
Proof.
  intros binary_data.
  pose proof (decode_stops binary_data 5 0) as (Hn & Hmin & _).
  split; [exact Hn|]. apply Hmin. lia.
Defined.

(** ** The covered byte set *)

Lemma elem_of_add_block covered start_offset sz a :
  a ∈ add_block covered start_offset sz
  <-> a ∈ covered \/ start_offset <= a < start_offset + sz.
Proof.
  unfold add_block.
  assert (forall l (s : gset Z), a ∈ foldl (fun s i => {[ start_offset + i ]} ∪ s) s l
            <-> a ∈ s \/ exists i, i ∈ l /\ a = start_offset + i) as Hfold.
  { induction l as [|i l IH]; intros s; simpl.
    - split; [auto|]. intros [H|(i & Hi & _)]; [done|]. by apply elem_of_nil in Hi.
    - rewrite IH, elem_of_union, elem_of_singleton.
      setoid_rewrite elem_of_cons. naive_solver. }
  rewrite Hfold. split; (intros [H|H]; [by left|right]).
  - destruct H as (i & Hi%elem_of_seqZ & ->). lia.
  - exists (a - start_offset). rewrite elem_of_seqZ. lia.
Qed.

Lemma elem_of_cover bbs : forall covered a,
  a ∈ cover covered bbs
  <-> a ∈ covered \/ exists bb, bb ∈ bbs /\ a ∈ block_bytes bb.
Proof.
  unfold cover, block_bytes.
  induction bbs as [|bb bbs IH]; intros covered a; simpl.
  - split; [auto|]. intros [H|(bb & Hbb & _)]; [done|]. by apply elem_of_nil in Hbb.
  - rewrite IH, elem_of_add_block. setoid_rewrite elem_of_cons.
    setoid_rewrite elem_of_seqZ. split.
    + intros [[H|H]|(bb' & Hbb & H)]; [by left| |]; right; eauto.
    + intros [H|(bb' & [->|Hbb] & H)]; eauto.
Qed.

Lemma target_blocks_app tid rs1 rs2 :
  target_blocks tid (rs1 ++ rs2) = target_blocks tid rs1 ++ target_blocks tid rs2.
Proof. unfold target_blocks. by rewrite filter_app, map_app. Qed.

Lemma cover_app covered bbs1 bbs2 :
  cover covered (bbs1 ++ bbs2) = cover (cover covered bbs1) bbs2.
Proof. unfold cover. apply foldl_app. Qed.

Lemma push_entry_aggregates tid st r :
  target_bbs (push_entry tid st r) = target_bbs st ++ target_blocks tid [r]
  /\ target_bytes_covered (push_entry tid st r)
     = cover (target_bytes_covered st) (target_blocks tid [r]).
Proof.
  unfold push_entry, target_blocks. rewrite filter_cons, filter_nil.
  case_decide; simpl; by rewrite ?app_nil_r.
Qed.

Lemma foldl_push_aggregates tid rs : forall st,
  target_bbs (foldl (push_entry tid) st rs)
    = target_bbs st ++ target_blocks tid rs
  /\ target_bytes_covered (foldl (push_entry tid) st rs)
     = cover (target_bytes_covered st) (target_blocks tid rs).
Proof.
  induction rs as [|r rs IH]; intros st.
  - simpl. by rewrite app_nil_r.
  - cbn [foldl]. destruct (IH (push_entry tid st r)) as [-> ->].
    destruct (push_entry_aggregates tid st r) as [-> ->].
    change (r :: rs) with ([r] ++ rs).
    by rewrite target_blocks_app, cover_app, (assoc_L (++)).
Qed.

Lemma cover_list_to_set bbs :
  cover ∅ bbs = list_to_set (bbs ≫= block_bytes).
Proof.
  apply set_eq. intros a.
  rewrite elem_of_cover, elem_of_list_to_set, list_elem_of_bind.
  set_solver.
Qed.

Lemma size_cover bbs :
  size (cover ∅ bbs) = length (remove_dups (bbs ≫= block_bytes)).
Proof.
  rewrite cover_list_to_set.
  rewrite <- (size_list_to_set (C:=gset Z) (remove_dups _)) by apply NoDup_remove_dups.
  f_equal. apply set_eq. intros a.
  by rewrite !elem_of_list_to_set, elem_of_remove_dups.
Qed.

Lemma cover_repeat covered bbs bb :
  bb ∈ bbs -> cover covered (bbs ++ [bb]) = cover covered bbs.
Proof.
  intros Hbb. apply set_eq. intros a. rewrite !elem_of_cover.
  setoid_rewrite elem_of_app. setoid_rewrite list_elem_of_singleton.
  split; [|naive_solver].
  intros [H|(bb' & [H| ->] & Ha)]; eauto.
Qed.

(** Claim C8. Adding a target record to the covered set a second time,
    immediately or anywhere later in the stream, changes neither the set
    nor its cardinality; and the cardinality after any stream is the number
    of distinct byte offsets of its target records, so that a byte covered
    by overlapping or repeated records is counted once. *)
Theorem covered_insert_idempotent (target_id : Z) (st : decode_state)
    (r : BasicBlockRecord) (rs : list BasicBlockRecord) :
  let once := push_entry target_id st r in
  let twice := push_entry target_id once r in
  let later := foldl (push_entry target_id) once rs in
  target_bytes_covered twice = target_bytes_covered once
  /\ size (target_bytes_covered twice) = size (target_bytes_covered once)
  /\ target_bytes_covered (push_entry target_id later r)
     = target_bytes_covered later
  /\ size (target_bytes_covered (foldl (push_entry target_id) decode_init rs))
     = length (remove_dups (target_blocks target_id rs ≫= block_bytes)).
Proof.
  intros once twice later.
  assert (forall st', (forall a, a ∈ target_bytes_covered once ->
                                 a ∈ target_bytes_covered st') ->
            target_bytes_covered (push_entry target_id st' r)
            = target_bytes_covered st') as Hidem.
  { intros st' Hsub. apply set_eq. intros a.
    rewrite (proj2 (push_entry_aggregates target_id st' r)).
    rewrite elem_of_cover. split; [|auto].
    intros [H|(bb & Hbb & Ha)]; [done|]. apply Hsub. subst once.
    rewrite (proj2 (push_entry_aggregates target_id st r)).
    rewrite elem_of_cover. eauto. }
  assert (target_bytes_covered twice = target_bytes_covered once) as H1
    by (apply Hidem; auto).
  split; [exact H1|]. split; [by rewrite H1|]. split.
  - apply Hidem. intros a Ha. subst later.
    rewrite (proj2 (foldl_push_aggregates target_id rs once)).
    rewrite elem_of_cover. auto.
  - rewrite (proj2 (foldl_push_aggregates target_id rs decode_init)).
    apply size_cover.
Qed.

(** ** The export hit test *)

Lemma func_hit_spec target_bbs func_addr :
  func_hit target_bbs func_addr = true
  <-> exists bb, bb ∈ target_bbs /\ Z.abs (tb_offset bb - func_addr) < 256.
Proof.
  unfold func_hit. rewrite existsb_exists.
  split; intros (bb & Hin & Hbb); exists bb.
  - apply list_elem_of_In in Hin. by apply bool_decide_eq_true in Hbb.
  - apply list_elem_of_In in Hin. by rewrite bool_decide_eq_true.
Qed.

(** Claim C2. For a name present in the export table, the export is
    reported hit exactly when some target block starts strictly less than
    256 bytes from its RVA: a block 255 bytes away makes it hit, and when
    every block is 256 bytes away or more it is not hit. *)
Theorem export_hit_window (export_addrs : export_table)
    (target_bbs : list TargetBlock) (func_name : string) (rva : Z) :
  dict_get export_addrs func_name = Some rva ->
  (export_status_of export_addrs target_bbs func_name = Hit
   <-> exists bb, bb ∈ target_bbs /\ Z.abs (tb_offset bb - rva) < 256)
  /\ ((exists bb, bb ∈ target_bbs /\ Z.abs (tb_offset bb - rva) = 255) ->
      export_status_of export_addrs target_bbs func_name = Hit)
  /\ ((forall bb, bb ∈ target_bbs -> 256 <= Z.abs (tb_offset bb - rva)) ->
      export_status_of export_addrs target_bbs func_name = NotHit).
Proof.
  intros Hget. unfold export_status_of. rewrite Hget.
  pose proof (func_hit_spec target_bbs rva) as Hspec.
  destruct (func_hit target_bbs rva).
  - split; [|split].
    + split; [intros _; by apply Hspec|done].
    + done.
    + intros Hfar. destruct (proj1 Hspec eq_refl) as (bb & Hin & Hbb).
      specialize (Hfar bb Hin). lia.
  - split; [|split].
    + split; [done|]. intros H. apply Hspec in H. done.
    + intros (bb & Hin & Hbb). assert (false = true); [|done].
      apply Hspec. exists bb. split; [done|lia].
    + done.
Qed.

Lemma export_hit_window_witness :
  let export_addrs := [("Aud_InitDll"%string, 4096)] in
  dict_get export_addrs "Aud_InitDll" = Some 4096
  /\ export_status_of export_addrs [mkTB (4096 + 255) 4] "Aud_InitDll" = Hit
  /\ export_status_of export_addrs [mkTB (4096 + 256) 4] "Aud_InitDll" = NotHit
  /\ export_status_of export_addrs [mkTB (4096 - 255) 4] "Aud_InitDll" = Hit
  /\ export_status_of export_addrs [mkTB (4096 - 256) 4] "Aud_InitDll" = NotHit.
Proof.
  intros export_addrs.
  assert (dict_get export_addrs "Aud_InitDll" = Some 4096) as Hget
    by reflexivity.
  split; [exact Hget|].
  split; [|split; [|split]].
  - apply (proj1 (proj2 (export_hit_window export_addrs _ _ _ Hget))).
    eexists. split; [apply list_elem_of_here|]. simpl. lia.
  - apply (proj2 (proj2 (export_hit_window export_addrs _ _ _ Hget))).
    intros bb ->%list_elem_of_singleton. simpl. lia.
  - apply (proj1 (proj2 (export_hit_window export_addrs _ _ _ Hget))).
    eexists. split; [apply list_elem_of_here|]. simpl. lia.
  - apply (proj2 (proj2 (export_hit_window export_addrs _ _ _ Hget))).
    intros bb ->%list_elem_of_singleton. simpl. lia.
Defined.

(** ** Sorting *)

Section sorting.
Context {A : Type} (key : A -> Z).

Lemma insert_by_perm x l : insert_by key x l ≡ₚ x :: l.
Proof.
  induction l as [|y l IH]; simpl; [done|].
  case_decide; [done|]. rewrite IH. apply Permutation_swap.
Qed.

Lemma py_sorted_perm l : py_sorted key l ≡ₚ l.
Proof.
  induction l as [|x l IH]; simpl; [done|].
  by rewrite insert_by_perm, IH.
Qed.

Lemma elem_of_py_sorted x l : x ∈ py_sorted key l <-> x ∈ l.
Proof. by rewrite py_sorted_perm. Qed.

Lemma insert_by_sorted x l :
  StronglySorted (fun a b => key a <= key b) l ->
  StronglySorted (fun a b => key a <= key b) (insert_by key x l).
Proof.
  induction 1 as [|y l Hl IH Hy]; simpl.
  - repeat constructor.
  - case_decide as Hxy.
    + constructor; [by constructor|].
      constructor; [done|]. eapply Forall_impl; [exact Hy|].
      simpl. intros z Hz. lia.
    + constructor; [done|]. rewrite insert_by_perm.
      constructor; [lia|done].
Qed.

Lemma py_sorted_sorted l :
  StronglySorted (fun a b => key a <= key b) (py_sorted key l).
Proof.
  induction l as [|x l IH]; simpl; [constructor|].
  by apply insert_by_sorted.
Qed.
End sorting.

(** ** Uncovered addresses and their grouping *)

Lemma elem_of_py_range a b x : x ∈ py_range a b <-> a <= x < b.
Proof. unfold py_range. rewrite elem_of_seqZ. lia. Qed.

Lemma elem_of_uncovered lo hi covered a :
  a ∈ uncovered lo hi covered <-> lo <= a < hi /\ a ∉ covered.
Proof.
  unfold uncovered. rewrite elem_of_py_sorted, elem_of_elements.
  rewrite elem_of_difference, elem_of_list_to_set, elem_of_py_range. done.
Qed.

Lemma uncovered_increasing lo hi covered :
  StronglySorted Z.lt (uncovered lo hi covered).
Proof.
  unfold uncovered.
  set (l := elements _).
  assert (NoDup (py_sorted id l)) as Hnd.
  { rewrite py_sorted_perm. apply NoDup_elements. }
  pose proof (py_sorted_sorted id l) as Hs.
  induction Hs as [|x l' Hl' IH Hx]; [constructor|].
  apply NoDup_cons in Hnd as [Hnin Hnd].
  constructor; [by apply IH|].
  apply Forall_forall. intros y Hy.
  rewrite Forall_forall in Hx. specialize (Hx y Hy). unfold id in Hx.
  assert (x <> y) by (intros ->; done). lia.
Qed.

Ltac gap_simpl :=
  unfold in_gap, gap_sep, gap_ok, gap_start, gap_end, gap_length in *;
  simpl in *.

Lemma group_step_runs rest : forall gaps s e,
  (let '(gaps', s', e') := foldl group_step (gaps, s, e) rest in
   gaps' ++ [(s', e', e' - s' + 1)]) = gaps ++ runs s e rest.
Proof.
  induction rest as [|a rest IH]; intros gaps s e; [done|].
  cbn [foldl runs]. unfold group_step at 2.
  case_decide.
  - apply IH.
  - rewrite IH, <- (assoc_L (++)). done.
Qed.

Lemma group_gaps_runs first rest :
  group_gaps (first :: rest) = runs first first rest.
Proof. unfold group_gaps. apply (group_step_runs rest []). Qed.

Lemma runs_spec rest : forall s e,
  s <= e ->
  StronglySorted Z.lt (e :: rest) ->
  (forall x, (exists g, g ∈ runs s e rest /\ in_gap x g)
             <-> (s <= x <= e \/ x ∈ rest))
  /\ Forall gap_ok (runs s e rest)
  /\ Forall (fun g => s <= gap_start g) (runs s e rest)
  /\ StronglySorted gap_sep (runs s e rest).
Proof.
  induction rest as [|a rest IH]; intros s e Hse Hinc.
  - simpl. split; [|split; [|split]].
    + intros x. split.
      * intros (g & ->%list_elem_of_singleton & Hg). by left.
      * intros [H|H]; [|by apply elem_of_nil in H].
        eexists. split; [apply list_elem_of_here|done].
    + constructor; [gap_simpl; lia|constructor].
    + constructor; [gap_simpl; lia|constructor].
    + repeat constructor.
  - apply StronglySorted_inv in Hinc as [Hinc He].
    apply Forall_cons in He as [Hea He].
    cbn [runs]. case_decide as Ha.
    + destruct (IH s a) as (H1 & H2 & H3 & H4); [lia|done|].
      split; [|done].
      intros x. rewrite H1, elem_of_cons.
      assert (s <= x <= a <-> s <= x <= e \/ x = a) by lia. tauto.
    + destruct (IH a a) as (H1 & H2 & H3 & H4); [lia|done|].
      split; [|split; [|split]].
      * intros x. rewrite elem_of_cons. split.
        -- intros (g & Hg & Hx). apply elem_of_cons in Hg as [->|Hg].
           ++ by left.
           ++ destruct (proj1 (H1 x)) as [?|?]; [eauto| |by auto].
              right. left. lia.
        -- intros [H|[->|H]].
           ++ eexists. split; [apply list_elem_of_here|done].
           ++ destruct (proj2 (H1 a)) as (g & Hg & Hx); [lia|].
              exists g. split; [by apply list_elem_of_further|done].
           ++ destruct (proj2 (H1 x)) as (g & Hg & Hx); [by right|].
              exists g. split; [by apply list_elem_of_further|done].
      * constructor; [gap_simpl; lia|done].
      * constructor; [gap_simpl; lia|].
        eapply Forall_impl; [exact H3|]. intros g. gap_simpl. lia.
      * constructor; [done|].
        eapply Forall_impl; [exact H3|]. intros g. gap_simpl. lia.
Qed.

Lemma group_gaps_spec l :
  StronglySorted Z.lt l ->
  (forall x, x ∈ l <-> exists g, g ∈ group_gaps l /\ in_gap x g)
  /\ Forall gap_ok (group_gaps l)
  /\ StronglySorted gap_sep (group_gaps l).
Proof.
  intros Hl. destruct l as [|first rest].
  - simpl. split; [|split; constructor].
    intros x. split; [by intros ?%elem_of_nil|].
    by intros (g & ?%elem_of_nil & _).
  - rewrite group_gaps_runs.
    destruct (runs_spec rest first first) as (H1 & H2 & H3 & H4); [lia|done|].
    split; [|done]. intros x. rewrite H1, elem_of_cons.
    assert (first <= x <= first <-> x = first) by lia. tauto.
Qed.

Lemma gap_sep_maximal G g x :
  Forall gap_ok G -> StronglySorted gap_sep G -> g ∈ G ->
  (exists g', g' ∈ G /\ in_gap x g') ->
  x <> gap_start g - 1 /\ x <> gap_end g + 1.
Proof.
  intros Hok Hs Hg (g' & Hg' & Hx).
  apply list_elem_of_split in Hg as (G1 & G2 & ->).
  assert (gap_ok g /\ gap_ok g') as [Hgok Hg'ok].
  { rewrite Forall_forall in Hok. split; apply Hok; [|done].
    apply elem_of_app. right. apply list_elem_of_here. }
  apply elem_of_app in Hg' as [Hg'|Hg'].
  - pose proof (StronglySorted_app_1_elem_of _ _ _ g' g Hs Hg'
                  ltac:(apply list_elem_of_here)) as Hsep.
    gap_simpl. lia.
  - apply StronglySorted_app_1_r in Hs.
    apply StronglySorted_inv in Hs as [_ Hs].
    apply elem_of_cons in Hg' as [->|Hg']; [gap_simpl; lia|].
    rewrite Forall_forall in Hs. specialize (Hs g' Hg').
    gap_simpl. lia.
Qed.

Lemma gap_sep_NoDup G :
  Forall gap_ok G -> StronglySorted gap_sep G -> NoDup G.
Proof.
  intros Hok Hs. induction Hs as [|g G HG IH Hg]; [constructor|].
  apply Forall_cons in Hok as [Hgok Hok].
  constructor; [|by apply IH].
  intros Hin. rewrite Forall_forall in Hg. specialize (Hg g Hin).
  gap_simpl. lia.
Qed.

Lemma elem_of_app_bytes_covered target_bbs lo hi a :
  a ∈ app_bytes_covered target_bbs lo hi
  <-> lo <= a < hi /\ a ∈ cover ∅ target_bbs.
Proof.
  unfold app_bytes_covered.
  assert (forall off l (s : gset Z),
            a ∈ foldl (fun s i => let addr := off + i in
                         if decide (lo <= addr < hi) then {[ addr ]} ∪ s else s)
                      s l
            <-> a ∈ s \/ (lo <= a < hi /\ exists i, i ∈ l /\ a = off + i))
    as Hinner.
  { intros off. induction l as [|i l IH]; intros s; cbn [foldl].
    - split; [auto|]. intros [H|(_ & i & Hi & _)]; [done|].
      by apply elem_of_nil in Hi.
    - rewrite IH. setoid_rewrite elem_of_cons. cbv zeta. case_decide.
      + rewrite elem_of_union, elem_of_singleton. naive_solver.
      + naive_solver. }
  assert (forall bbs (s : gset Z),
            a ∈ foldl (fun s bb =>
                   foldl (fun s i => let addr := tb_offset bb + i in
                            if decide (lo <= addr < hi) then {[ addr ]} ∪ s else s)
                         s (seqZ 0 (tb_size bb))) s bbs
            <-> a ∈ s \/ (lo <= a < hi /\ a ∈ cover ∅ bbs)) as Houter.
  { induction bbs as [|bb bbs IH]; intros s; cbn [foldl].
    - rewrite elem_of_cover. split; [auto|].
      intros [H|(_ & [H|(bb & Hbb & _)])]; [done|done|].
      by apply elem_of_nil in Hbb.
    - rewrite IH, Hinner, !elem_of_cover.
      setoid_rewrite elem_of_cons. unfold block_bytes.
      setoid_rewrite elem_of_seqZ.
      split.
      + intros [[H|(Hw & i & Hi & ->)]|(Hw & [H|(bb' & Hbb' & H)])];
          [by left| |done|].
        * right. split; [done|]. right. exists bb. split; [by left|lia].
        * right. split; [done|]. right. exists bb'. split; [by right|done].
      + intros [H|(Hw & [H|(bb' & [->|Hbb'] & H)])]; [by left; left|done| |].
        * left. right. split; [done|]. exists (a - tb_offset bb).
          split; lia.
        * right. split; [done|]. right. eauto. }
  rewrite Houter. split; [|auto]. intros [H|H]; [done|done].
Qed.

Lemma uncovered_app_bytes target_bbs lo hi :
  uncovered lo hi (app_bytes_covered target_bbs lo hi)
  = uncovered lo hi (cover ∅ target_bbs).
Proof.
  unfold uncovered. do 2 f_equal. apply set_eq. intros a.
  rewrite !elem_of_difference, elem_of_list_to_set, elem_of_py_range.
  rewrite elem_of_app_bytes_covered. tauto.
Qed.

Lemma export_window_nonempty export_addrs :
  export_addrs <> [] -> exists lo hi, export_window export_addrs = Some (lo, hi).
Proof.
  intros Hne. destruct export_addrs as [|[k v] rest]; [done|].
  unfold export_window. simpl. eauto.
Qed.

Lemma StronglySorted_weaken {A} (R R' : relation A) l :
  (forall x y, R x y -> R' x y) -> StronglySorted R l -> StronglySorted R' l.
Proof.
  intros HR. induction 1 as [|x l Hl IH Hx]; constructor; [done|].
  eapply Forall_impl; [exact Hx|]. auto.
Qed.

Lemma coverage_gaps_spec (export_min export_max : Z) (covered : gset Z) :
  let gaps := coverage_gaps export_min export_max covered in
  (forall g, g ∈ gaps ->
     export_min <= gap_start g /\ gap_start g <= gap_end g
     /\ gap_end g < export_max
     /\ gap_length g = gap_end g - gap_start g + 1
     /\ (forall a, in_gap a g -> a ∉ covered)
     /\ (gap_start g - 1 < export_min \/ gap_start g - 1 ∈ covered)
     /\ (export_max <= gap_end g + 1 \/ gap_end g + 1 ∈ covered))
  /\ (forall a, export_min <= a < export_max -> a ∉ covered ->
        exists g, g ∈ gaps /\ in_gap a g)
  /\ NoDup gaps
  /\ StronglySorted (fun g1 g2 => gap_length g1 >= gap_length g2) gaps.
Proof.
  intros gaps.
  pose proof (uncovered_increasing export_min export_max covered) as Hinc.
  destruct (group_gaps_spec _ Hinc) as (Hmem & Hok & Hsep).
  set (G := group_gaps (uncovered export_min export_max covered)) in *.
  assert (forall g, g ∈ gaps <-> g ∈ G) as Hperm
    by (intros g; apply elem_of_py_sorted).
  split; [|split; [|split]].
  - intros g Hg%Hperm.
    assert (gap_ok g) as [Hse Hlen]
      by (rewrite Forall_forall in Hok; by apply Hok).
    assert (forall a, in_gap a g ->
              export_min <= a < export_max /\ a ∉ covered) as Hin.
    { intros a Ha. apply elem_of_uncovered, Hmem. eauto. }
    destruct (Hin (gap_start g)) as [Hs _]; [unfold in_gap; lia|].
    destruct (Hin (gap_end g)) as [He _]; [unfold in_gap; lia|].
    assert (forall x, x = gap_start g - 1 \/ x = gap_end g + 1 ->
              x ∉ uncovered export_min export_max covered) as Hmax.
    { intros x Hx Hxin. apply Hmem in Hxin.
      destruct (gap_sep_maximal G g x Hok Hsep Hg Hxin). lia. }
    repeat split; try lia.
    + intros a Ha. by apply Hin.
    + destruct (decide (gap_start g - 1 ∈ covered)) as [|Hn]; [by right|].
      left. destruct (decide (gap_start g - 1 < export_min)); [done|].
      exfalso. apply (Hmax (gap_start g - 1)); [by left|].
      apply elem_of_uncovered. split; [lia|done].
    + destruct (decide (gap_end g + 1 ∈ covered)) as [|Hn]; [by right|].
      left. destruct (decide (export_max <= gap_end g + 1)); [done|].
      exfalso. apply (Hmax (gap_end g + 1)); [by right|].
      apply elem_of_uncovered. split; [lia|done].
  - intros a Ha Hcov.
    destruct (proj1 (Hmem a)) as (g & Hg & Hag);
      [by apply elem_of_uncovered|].
    exists g. split; [by apply Hperm|done].
  - subst gaps. unfold coverage_gaps. rewrite py_sorted_perm.
    by apply gap_sep_NoDup.
  - subst gaps. unfold coverage_gaps.
    eapply StronglySorted_weaken;
      [|exact (py_sorted_sorted (fun g => - gap_length g) G)].
    simpl. intros g1 g2. lia.
Qed.

(** Claim C3. The gap list consists of the maximal runs of consecutive
    addresses of the window that are not covered (each run inside the
    window, uncovered throughout, bounded on both sides by a covered
    address or the edge of the window, every uncovered address in one of
    them, none listed twice), in descending order of length. For the
    window [1000,1010) and the covered set [{1000,1001,1005,1006,1007}] the
    list is [1002..1004] (length 3) then [1008..1009] (length 2). For a
    non-empty export table the list computed from the bytes covered inside
    the window is the one computed from the whole covered set. *)
Theorem gaps_are_maximal_runs (export_min export_max : Z) (covered : gset Z) :
  let gaps := coverage_gaps export_min export_max covered in
  (forall g, g ∈ gaps ->
     export_min <= gap_start g /\ gap_start g <= gap_end g
     /\ gap_end g < export_max
     /\ gap_length g = gap_end g - gap_start g + 1
     /\ (forall a, in_gap a g -> a ∉ covered)
     /\ (gap_start g - 1 < export_min \/ gap_start g - 1 ∈ covered)
     /\ (export_max <= gap_end g + 1 \/ gap_end g + 1 ∈ covered))
  /\ (forall a, export_min <= a < export_max -> a ∉ covered ->
        exists g, g ∈ gaps /\ in_gap a g)
  /\ NoDup gaps
  /\ StronglySorted (fun g1 g2 => gap_length g1 >= gap_length g2) gaps
  /\ coverage_gaps 1000 1010 (list_to_set [1000; 1001; 1005; 1006; 1007])
     = [(1002, 1004, 3); (1008, 1009, 2)]
  /\ (forall export_addrs target_bbs, export_addrs <> [] ->
        exists lo hi, export_window export_addrs = Some (lo, hi)
          /\ coverage_gaps lo hi (app_bytes_covered target_bbs lo hi)
             = coverage_gaps lo hi (cover ∅ target_bbs)).
Proof.
  intros gaps.
  destruct (coverage_gaps_spec export_min export_max covered)
    as (Hsound & Hcomplete & Hnodup & Hsorted).
  split; [exact Hsound|]. split; [exact Hcomplete|].
  split; [exact Hnodup|]. split; [exact Hsorted|]. split.
  - vm_compute. reflexivity.
  - intros export_addrs target_bbs Hne.
    destruct (export_window_nonempty _ Hne) as (lo & hi & Hw).
    exists lo, hi. split; [done|].
    unfold coverage_gaps. by rewrite uncovered_app_bytes.
Qed.

(** ** Attribution of a gap to an export *)

Lemma StronglySorted_lookup_lt {A} (R : relation A) l i j x y :
  StronglySorted R l -> (i < j)%nat ->
  l !! i = Some x -> l !! j = Some y -> R x y.
Proof.
  intros Hs. revert i j. induction Hs as [|z l Hl IH Hz]; intros i j Hij Hi Hj.
  - by rewrite lookup_nil in Hi.
  - destruct j as [|j]; [lia|]. destruct i as [|i]; simpl in *.
    + injection Hi as ->. rewrite Forall_forall in Hz. apply Hz.
      by eapply list_elem_of_lookup_2.
    + apply (IH i j); [lia|done|done].
Qed.

Lemma py_min_spec l m :
  py_min l = Some m -> m ∈ l /\ forall x, x ∈ l -> m <= x.
Proof.
  destruct l as [|x0 l]; [done|]. simpl. intros [= <-].
  revert x0. induction l as [|y l IH]; intros x0; simpl.
  - split; [apply list_elem_of_here|].
    intros x ->%list_elem_of_singleton. lia.
  - destruct (IH (Z.min x0 y)) as [Hin Hle]. split.
    + apply elem_of_cons in Hin as [Hin|Hin].
      * rewrite Hin. destruct (Z.min_spec x0 y) as [[_ ->]|[_ ->]].
        -- apply list_elem_of_here.
        -- apply list_elem_of_further, list_elem_of_here.
      * by do 2 apply list_elem_of_further.
    + intros x Hx.
      assert (foldl Z.min (Z.min x0 y) l <= Z.min x0 y) as Hm
        by (apply Hle, list_elem_of_here).
      apply elem_of_cons in Hx as [->|Hx]; [lia|].
      apply elem_of_cons in Hx as [->|Hx]; [lia|].
      apply Hle. by apply list_elem_of_further.
Qed.

Lemma containing_func_from_spec all start rest : forall j fname0 faddr0 rest',
  StronglySorted (fun a b => a.2 <= b.2) all ->
  drop j all = rest ->
  rest = (fname0, faddr0) :: rest' ->
  faddr0 <= start ->
  exists k faddr,
    all !! k = Some (containing_func_from all start j rest, faddr)
    /\ faddr <= start
    /\ (forall k' n a, all !! k' = Some (n, a) -> a <= start -> (k' <= k)%nat)
    /\ match all !! (k + 1)%nat with
       | Some (_, next) => start < next
       | None => True
       end.
Proof.
  induction rest as [|[fname faddr] rest IH];
    intros j fname0 faddr0 rest' Hs Hdrop Heq Hle; [done|].
  injection Heq as -> -> ->.
  assert (all !! j = Some (fname0, faddr0)) as Hj.
  { rewrite <- (Nat.add_0_r j), <- lookup_drop, Hdrop. done. }
  assert (drop (j + 1) all = rest') as Hdrop'.
  { rewrite <- drop_drop, Hdrop. done. }
  cbn [containing_func_from]. rewrite decide_True by done.
  destruct (all !! (j + 1)%nat) as [[n1 next]|] eqn:Hnext.
  - case_decide as Hgt.
    + exists j, faddr0. split; [done|]. split; [done|]. split.
      * intros k' n a Hk' Ha. destruct (decide (k' <= j)%nat); [done|].
        exfalso.
        destruct (decide (k' = j + 1)%nat) as [->|].
        -- rewrite Hnext in Hk'. injection Hk' as -> ->. lia.
        -- pose proof (StronglySorted_lookup_lt _ all (j + 1) k' _ _ Hs
                         ltac:(lia) Hnext Hk') as H. simpl in H. lia.
      * rewrite Hnext. lia.
    + destruct rest' as [|[n2 a2] rest''].
      { apply (f_equal length) in Hdrop'. rewrite length_drop in Hdrop'.
        apply lookup_lt_Some in Hnext. simpl in Hdrop'. lia. }
      assert (all !! (j + 1)%nat = Some (n2, a2)) as Hj1.
      { rewrite <- (Nat.add_0_r (j + 1)), <- lookup_drop, Hdrop'. done. }
      rewrite Hnext in Hj1. injection Hj1 as -> ->.
      apply (IH (j + 1)%nat n2 a2 rest''); [done|done|done|lia].
  - exists j, faddr0. split; [done|]. split; [done|]. split.
    + intros k' n a Hk' _. apply lookup_lt_Some in Hk'.
      apply lookup_ge_None in Hnext. lia.
    + by rewrite Hnext.
Qed.

Lemma containing_func_spec export_addrs start lo hi :
  export_window export_addrs = Some (lo, hi) ->
  lo <= start ->
  exists k faddr,
    sorted_exports export_addrs !! k
      = Some (containing_func (sorted_exports export_addrs) start, faddr)
    /\ faddr <= start
    /\ (forall n a, (n, a) ∈ export_addrs -> a <= start -> a <= faddr)
    /\ match sorted_exports export_addrs !! (k + 1)%nat with
       | Some (_, next) => start < next
       | None => True
       end.
Proof.
  intros Hw Hlo.
  pose proof (py_sorted_sorted snd export_addrs) as Hs.
  fold (sorted_exports export_addrs) in Hs.
  assert (forall x, x ∈ sorted_exports export_addrs <-> x ∈ export_addrs)
    as Hperm by (intros x; apply elem_of_py_sorted).
  unfold export_window in Hw.
  destruct (py_min (map snd export_addrs)) as [m|] eqn:Hmin; [|done].
  destruct (py_max (map snd export_addrs)) as [M|]; [|done].
  injection Hw as <- <-.
  apply py_min_spec in Hmin as [Hmin_in Hmin_le].
  destruct (sorted_exports export_addrs) as [|[fname0 faddr0] rest'] eqn:Hse.
  { apply list_elem_of_fmap in Hmin_in as (x & _ & Hx).
    apply Hperm in Hx. by apply elem_of_nil in Hx. }
  assert (faddr0 <= m) as Hhead.
  { apply list_elem_of_fmap in Hmin_in as ([n a] & -> & Hx).
    apply Hperm in Hx. apply elem_of_cons in Hx as [[= -> ->]|Hx]; [done|].
    apply StronglySorted_inv in Hs as [_ Hs].
    rewrite Forall_forall in Hs. apply (Hs _ Hx). }
  rewrite <- Hse in *.
  destruct (containing_func_from_spec (sorted_exports export_addrs) start
              (sorted_exports export_addrs) 0 fname0 faddr0 rest')
    as (k & faddr & Hk & Hle & Hlast & Hnext); [done|done|done|lia|].
  exists k, faddr. split; [done|]. split; [done|]. split; [|done].
  intros n a Hin Ha. apply Hperm in Hin.
  apply list_elem_of_lookup in Hin as [k' Hk'].
  pose proof (Hlast k' n a Hk' Ha) as Hkk.
  destruct (decide (k' = k)) as [->|].
  - rewrite Hk in Hk'. injection Hk' as _ ->. lia.
  - apply (StronglySorted_lookup_lt _ _ k' k _ _ Hs ltac:(lia) Hk' Hk).
Qed.

(** Claim C9. For a non-empty export table, each of the first ten gaps
    is attributed to an export of the address-sorted table whose address is
    at most the start of the gap and is the highest such address, and whose
    successor in sorted order, when there is one, lies beyond the start of
    the gap. *)
Theorem gap_attribution (export_addrs : export_table)
    (target_bbs : list TargetBlock) :
  export_addrs <> [] ->
  exists lo hi,
    export_window export_addrs = Some (lo, hi)
    /\ let gaps := coverage_gaps lo hi (app_bytes_covered target_bbs lo hi) in
       map fst (gap_report export_addrs gaps) = take 10 gaps
       /\ forall g fname,
            (g, fname) ∈ gap_report export_addrs gaps ->
            exists k faddr,
              sorted_exports export_addrs !! k = Some (fname, faddr)
              /\ faddr <= gap_start g
              /\ (forall n a, (n, a) ∈ export_addrs ->
                    a <= gap_start g -> a <= faddr)
              /\ match sorted_exports export_addrs !! (k + 1)%nat with
                 | Some (_, next) => gap_start g < next
                 | None => True
                 end.
Proof.
  intros Hne.
  destruct (export_window_nonempty _ Hne) as (lo & hi & Hw).
  exists lo, hi. split; [done|]. intros gaps. split.
  - unfold gap_report. rewrite map_map. simpl. apply map_id.
  - intros g fname Hin. unfold gap_report in Hin.
    apply list_elem_of_fmap in Hin as (g' & [= -> ->] & Hg).
    apply elem_of_take in Hg as (i & Hg & _).
    apply list_elem_of_lookup_2 in Hg.
    destruct (proj1 (coverage_gaps_spec lo hi
                (app_bytes_covered target_bbs lo hi)) g' Hg) as [Hlo _].
    by apply (containing_func_spec export_addrs (gap_start g') lo hi).
Qed.

Lemma gap_attribution_witness :
  let export_addrs := [("Aud_InitDll", 4096); ("Aud_GetString", 4200)]%string in
  let target_bbs := [mkTB 4096 16] in
  export_addrs <> []
  /\ (exists lo hi,
        export_window export_addrs = Some (lo, hi)
        /\ let gaps := coverage_gaps lo hi (app_bytes_covered target_bbs lo hi) in
           map fst (gap_report export_addrs gaps) = take 10 gaps
           /\ forall g fname,
                (g, fname) ∈ gap_report export_addrs gaps ->
                exists k faddr,
                  sorted_exports export_addrs !! k = Some (fname, faddr)
                  /\ faddr <= gap_start g
                  /\ (forall n a, (n, a) ∈ export_addrs ->
                        a <= gap_start g -> a <= faddr)
                  /\ match sorted_exports export_addrs !! (k + 1)%nat with
                     | Some (_, next) => gap_start g < next
                     | None => True
                     end)
  /\ gap_report export_addrs
       (coverage_gaps 4096 4712 (app_bytes_covered target_bbs 4096 4712))
     = [((4112, 4711, 600), "Aud_InitDll"%string)].
Proof.
  intros export_addrs target_bbs.
  assert (export_addrs <> []) as Hne by done.
  split; [exact Hne|]. split.
  - exact (gap_attribution export_addrs target_bbs Hne).
  - vm_compute. reflexivity.
Defined.

(** ** Text primitives *)

Lemma startswith_spec s sub :
  startswith s sub = true <-> exists post, s = sub ++ post.
Proof.
  revert s. induction sub as [|p sub IH]; intros s.
  - destruct s; simpl; split; eauto.
  - destruct s as [|c s]; simpl.
    + split; [done|]. intros [post H]. discriminate.
    + case_decide as Hpc.
      * subst. rewrite IH. split; intros [post H]; exists post; congruence.
      * split; [done|]. intros [post H]. congruence.
Qed.

Lemma find_Some s sub i :
  find s sub = Some i ->
  exists pre post, s = pre ++ sub ++ post /\ length pre = i.
Proof.
  revert i. induction s as [|c s IH]; intros i; cbn [find].
  - destruct (startswith [] sub) eqn:Hs; [|done]. intros [= <-].
    apply startswith_spec in Hs as [post Hs]. by exists [], post.
  - destruct (startswith (c :: s) sub) eqn:Hs.
    + intros [= <-]. apply startswith_spec in Hs as [post Hs].
      by exists [], post.
    + destruct (find s sub) as [j|]; [|done]. simpl. intros [= <-].
      destruct (IH j eq_refl) as (pre & post & -> & Hlen).
      exists (c :: pre), post. simpl. by rewrite Hlen.
Qed.

Lemma find_None s sub :
  find s sub = None <-> forall pre post, s <> pre ++ sub ++ post.
Proof.
  split.
  - induction s as [|c s IH]; cbn [find].
    + destruct (startswith [] sub) eqn:Hs; [done|]. intros _ pre post H.
      destruct pre; [|done]. simpl in H.
      assert (startswith [] sub = true); [|congruence].
      apply startswith_spec. eauto.
    + destruct (startswith (c :: s) sub) eqn:Hs; [done|].
      destruct (find s sub) eqn:Hf; [done|]. intros _ pre post H.
      destruct pre as [|c' pre]; simpl in H.
      * assert (startswith (c :: s) sub = true); [|congruence].
        apply startswith_spec. eauto.
      * injection H as -> H. by apply (IH eq_refl pre post).
  - intros Hno. destruct (find s sub) as [i|] eqn:Hf; [|done].
    apply find_Some in Hf as (pre & post & H & _). by apply Hno in H.
Qed.

Lemma contains_spec s sub :
  contains s sub = true <-> exists pre post, s = pre ++ sub ++ post.
Proof.
  unfold contains. destruct (find s sub) as [i|] eqn:Hf.
  - split; [intros _|done].
    apply find_Some in Hf as (pre & post & H & _). eauto.
  - split; [done|]. intros (pre & post & H).
    by apply (proj1 (find_None s sub) Hf) in H.
Qed.

(** ** Computations that print and may raise *)

Lemma bind_Value {A B} (m : run A) (k : A -> run B) out a :
  m = (out, Value a) -> bind m k = (out ++ (k a).1, (k a).2).
Proof. intros ->. simpl. by destruct (k a). Qed.

Lemma bind_Raise {A B} (m : run A) (k : A -> run B) out e :
  m = (out, Raise e) -> bind m k = (out, Raise e).
Proof. by intros ->. Qed.

Lemma bind_inv_Value {A B} (m : run A) (k : A -> run B) out b :
  bind m k = (out, Value b) ->
  exists out1 a out2, m = (out1, Value a) /\ k a = (out2, Value b)
                      /\ out = out1 ++ out2.
Proof.
  destruct m as [out1 [a|e]]; simpl; [|done].
  destruct (k a) as [out2 r] eqn:Hk. intros [= <- ->].
  by exists out1, a, out2.
Qed.

(** ** The missing marker *)

Section marker.
Context `{!TextBuiltins} `{!Collaborators}.

(** Claim C6. When the bytes of the trace contain no ["BB Table:"], the
    run prints the failure line and nothing else, returns [None] and raises
    nothing, whatever the collaborators would have answered. *)
Theorem missing_marker_fails (content : str) (local_dll_path : option str) :
  (forall pre post, content <> pre ++ BB_MARKER ++ post) ->
  parse_drcov_file content local_dll_path = ([FailNoMarker], Value None).
Proof.
  intros Hno. unfold parse_drcov_file.
  by rewrite (proj2 (find_None content BB_MARKER) Hno).
Qed.
End marker.

Lemma missing_marker_fails_witness :
  (forall pre post, lit "DRCOV VERSION: 2" <> pre ++ BB_MARKER ++ post)
  /\ @parse_drcov_file ascii_builtins (sample_collaborators 168232 [])
       (lit "DRCOV VERSION: 2") None
     = ([FailNoMarker], Value None).
Proof.
  assert (forall pre post, lit "DRCOV VERSION: 2" <> pre ++ BB_MARKER ++ post)
    as Hno by (apply find_None; vm_compute; reflexivity).
  split; [exact Hno|].
  exact (@missing_marker_fails ascii_builtins (sample_collaborators 168232 [])
           _ None Hno).
Defined.

(** ** The module resolver *)

Section resolver.
Context `{!TextBuiltins}.

Lemma process_line_row st line m :
  row_of_line line = Some m ->
  process_line st line
  = if is_target_path (mod_path m)
    then if true_div_overflows (mod_size m) 1024
         then ([FoundTargetUnsized m], Raise OverflowError)
         else ([FoundTarget m],
               Value (mkTable (<[mod_id m := m]> (modules st)) (Some m)
                        (module_count st)))
    else ([],
          Value (mkTable (<[mod_id m := m]> (modules st)) (target_module st)
                   (module_count st))).
Proof.
  unfold row_of_line, process_line.
  destruct (startswith line (lit "Module Table:")); [done|].
  intros ->. destruct (is_target_path (mod_path m)); [|done].
  destruct (true_div_overflows (mod_size m) 1024); [done|].
  simpl. by rewrite lookup_insert_eq.
Qed.

Lemma process_line_no_row st line out st' :
  row_of_line line = None ->
  process_line st line = (out, Value st') ->
  out = [] /\ target_module st' = target_module st.
Proof.
  unfold row_of_line, process_line.
  destruct (startswith line (lit "Module Table:")).
  - intros _. destruct (_ !! 1%nat) as [p1|]; [|by intros [= <- <-]].
    destruct (py_int 10 (py_strip p1)); [|done]. by intros [= <- <-].
  - intros ->. by intros [= <- <-].
Qed.

Lemma matching_rows_cons line lines :
  matching_rows (line :: lines)
  = match row_of_line line with
    | Some m => if is_target_path (mod_path m)
                then m :: matching_rows lines else matching_rows lines
    | None => matching_rows lines
    end.
Proof.
  unfold matching_rows. simpl. destruct (row_of_line line) as [m|]; [|done].
  rewrite filter_cons. destruct (is_target_path (mod_path m)); by case_decide.
Qed.

Lemma for_each_process_line lines : forall st out st',
  for_each process_line st lines = (out, Value st') ->
  target_module st'
    = match last (matching_rows lines) with
      | Some m => Some m
      | None => target_module st
      end
  /\ out = map FoundTarget (matching_rows lines).
Proof.
  induction lines as [|line lines IH]; intros st out st'.
  - simpl. by intros [= <- <-].
  - cbn [for_each]. intros Hrun.
    apply bind_inv_Value in Hrun as (out1 & st1 & out2 & Hline & Hrest & ->).
    apply IH in Hrest as [Htarget ->].
    rewrite matching_rows_cons.
    destruct (row_of_line line) as [m|] eqn:Hrow.
    + rewrite (process_line_row _ _ _ Hrow) in Hline.
      destruct (is_target_path (mod_path m)) eqn:Hm.
      * destruct (true_div_overflows (mod_size m) 1024); [done|].
        injection Hline as <- <-. split; [|done]. rewrite Htarget. simpl.
        destruct (matching_rows lines) as [|m' l] eqn:Hf; [done|].
        rewrite (last_cons m (m' :: l)). by destruct (last (m' :: l)).
      * by injection Hline as <- <-.
    + apply (process_line_no_row _ _ _ _ Hrow) in Hline as [-> Hst1].
      by rewrite Htarget, Hst1.
Qed.

(** Claim C4, as the code has it. When the module table is read without
    error, the target module is the last row, in table order, whose path
    matches; each matching row is announced in turn, and with two or more
    matching rows the later one replaces the earlier one. *)
Theorem last_matching_row_wins (content : str) (text_end : nat)
    (out : list diag) (st : table_state) :
  read_module_table content text_end = (out, Value st) ->
  let rows := matching_rows (prologue_lines content text_end) in
  target_module st = last rows
  /\ out = map FoundTarget rows
  /\ forall rows' m1 m2, rows = rows' ++ [m1; m2] -> target_module st = Some m2.
Proof.
  intros Hrun rows. unfold read_module_table in Hrun.
  apply for_each_process_line in Hrun as [Htarget Hout].
  fold rows in Htarget, Hout.
  assert (target_module st = last rows) as Hlast.
  { rewrite Htarget. by destruct (last rows). }
  split; [done|]. split; [done|].
  intros rows' m1 m2 Hrows. rewrite Hlast, Hrows.
  change (rows' ++ [m1; m2]) with (rows' ++ [m1] ++ [m2]).
  rewrite (assoc_L (++) rows' [m1] [m2]). apply last_snoc.
Qed.

(** Claim C5, as the code has it. The match is a case-sensitive
    substring test. A module row whose path contains ["target.dll"],
    spelled exactly so, is matched: it is announced as the target, by the
    three lines of the announcement or, when the size line cannot be
    printed, by the first two; whenever the loop goes on after the row
    its module is the target module; and the loop does go on, with the
    whole announcement printed, when [size/1024] is within the range of a
    float. A row whose path does not contain the name is not announced
    and leaves the target module unchanged. *)
Theorem target_match_is_case_sensitive (st : table_state) (line : str)
    (m : Module) :
  row_of_line line = Some m ->
  ((exists pre post, mod_path m = pre ++ TARGET_NAME ++ post) ->
     exists out r, process_line st line = (out, r)
       /\ (out = [FoundTarget m] \/ out = [FoundTargetUnsized m])
       /\ (forall st', r = Value st' -> target_module st' = Some m)
       /\ (true_div_overflows (mod_size m) 1024 = false ->
           out = [FoundTarget m] /\ exists st', r = Value st'))
  /\ ((forall pre post, mod_path m <> pre ++ TARGET_NAME ++ post) ->
     exists st', process_line st line = ([], Value st')
                 /\ target_module st' = target_module st).
Proof.
  intros Hrow. rewrite (process_line_row st line m Hrow).
  unfold is_target_path. rewrite orb_diag. split.
  - intros Hin. apply contains_spec in Hin. rewrite Hin.
    destruct (true_div_overflows (mod_size m) 1024).
    + eexists _, _. split; [reflexivity|]. split; [by right|]. by split.
    + eexists _, _. split; [reflexivity|]. split; [by left|]. split.
      * by intros st' [= <-].
      * intros _. split; [done|]. eauto.
  - intros Hno. destruct (contains (mod_path m) TARGET_NAME) eqn:Hc; [|eauto].
    apply contains_spec in Hc as (pre & post & Hc). by apply Hno in Hc.
Qed.
End resolver.

(** A trace whose module table has two matching rows: the report is made
    for the second one, not for the first. *)
Lemma first_match_does_not_win :
  @table_matches ascii_builtins two_targets_trace
    = [first_target; second_target]
  /\ reported_module
       (@parse_drcov_file ascii_builtins (sample_collaborators 168232 [])
          two_targets_trace None)
     = Some second_target
  /\ second_target <> first_target.
Proof.
  split; [vm_compute; reflexivity|].
  split; [vm_compute; reflexivity|].
  discriminate.
Qed.

Lemma last_matching_row_wins_witness :
  exists text_end out st,
    find two_targets_trace BB_MARKER = Some text_end
    /\ @read_module_table ascii_builtins two_targets_trace text_end
       = (out, Value st)
    /\ target_module st = Some second_target
    /\ out = [FoundTarget first_target; FoundTarget second_target].
Proof.
  destruct (find two_targets_trace BB_MARKER) as [text_end|] eqn:Hfind;
    [|vm_compute in Hfind; discriminate].
  destruct (@read_module_table ascii_builtins two_targets_trace text_end)
    as [out [st|e]] eqn:Hrun.
  - exists text_end, out, st. split; [reflexivity|]. split; [exact Hrun|].
    destruct (@last_matching_row_wins ascii_builtins two_targets_trace
                text_end out st Hrun) as (Hlast & Hout & _).
    assert (@matching_rows ascii_builtins
              (@prologue_lines ascii_builtins two_targets_trace text_end)
            = [first_target; second_target]) as Hrows.
    { vm_compute in Hfind. injection Hfind as <-. vm_compute. reflexivity. }
    rewrite Hrows in Hlast, Hout. split; [exact Hlast|exact Hout].
  - exfalso. vm_compute in Hfind. injection Hfind as <-.
    vm_compute in Hrun. discriminate.
Defined.

(** A trace whose only row spells the file name in upper case: the path
    contains the name up to letter case, yet no target module is found. *)
Lemma upper_case_name_not_matched :
  (exists m, @table_rows ascii_builtins upper_case_trace = [m]
             /\ contains (lower (mod_path m)) TARGET_NAME = true)
  /\ @parse_drcov_file ascii_builtins (sample_collaborators 168232 [])
       upper_case_trace None
     = ([FailNoTarget], Value None).
Proof.
  split.
  - eexists. split; vm_compute; reflexivity.
  - vm_compute. reflexivity.
Qed.

Lemma target_match_is_case_sensitive_witness :
  let line := sample_row "0" "10000000" "10020000" "C:\x\target.dll" in
  let m := mkModule 0 268435456 268566528 131072 (lit "C:\x\target.dll") in
  @row_of_line ascii_builtins line = Some m
  /\ (exists pre post, mod_path m = pre ++ TARGET_NAME ++ post)
  /\ exists st', @process_line ascii_builtins table_init line
                 = ([FoundTarget m], Value st')
                 /\ target_module st' = Some m.
Proof.
  intros line m.
  assert (@row_of_line ascii_builtins line = Some m) as Hrow
    by (vm_compute; reflexivity).
  assert (exists pre post, mod_path m = pre ++ TARGET_NAME ++ post) as Hin
    by (exists (lit "C:\x\"), []; vm_compute; reflexivity).
  split; [exact Hrow|]. split; [exact Hin|].
  destruct (proj1 (@target_match_is_case_sensitive ascii_builtins table_init
                     line m Hrow) Hin) as (out & r & Hline & _ & Htarget & Hfits).
  destruct (Hfits eq_refl) as [-> [st' ->]].
  exists st'. split; [exact Hline|]. exact (Htarget st' eq_refl).
Defined.

(** ** The empty target module *)

Section empty_module.
Context `{!TextBuiltins} `{!Collaborators}.





End empty_module.


(** ** The end-to-end scenario *)

(** On the scenario trace the export is hit, sixteen bytes are covered and
    coverage-of-total is [100 * 16 / 0x20000]. *)
Example end_to_end_scenario :
  (exists rep, scenario_run.2 = Value (Some rep)
               /\ rep_bytes_covered rep = 16%nat
               /\ rep_target_bbs rep = 1%nat
               /\ rep_exports_hit rep = 1)
  /\ ExportLine "Aud_InitDll" Hit ∈ scenario_run.1
  /\ CoverageLines 131072 168232 (Pct 16 131072) (Pct 16 168232)
       ∈ scenario_run.1.
Proof.
  split; [|split].
  - eexists. vm_compute. repeat split.
  - vm_compute. repeat first [apply list_elem_of_here | apply list_elem_of_further].
  - vm_compute. repeat first [apply list_elem_of_here | apply list_elem_of_further].
Qed.

(* ================================================================== *)
(** * Further properties of the analyser *)
(* ================================================================== *)

(** ** The decoding loop on arbitrary bytes *)

Lemma records_at_S d n :
  records_at d (S n) = records_at d n ++ [record_at d n].
Proof. unfold records_at. by rewrite seq_S, map_app. Qed.

Lemma length_records_at d n : length (records_at d n) = n.
Proof. unfold records_at. by rewrite length_map, length_seq. Qed.

Lemma ds_offset_foldl_push tid rs : forall st,
  ds_offset (foldl (push_entry tid) st rs)
  = (ds_offset st + entry_size * length rs)%nat.
Proof.
  induction rs as [|r rs IH]; intros st; simpl; [lia|].
  rewrite IH, ds_offset_push. unfold entry_size. lia.
Qed.

Lemma replay_inv_run d c t st st' :
  replay_inv d t st -> decode_steps d c t st st' -> replay_inv d t st'.
Proof.
  intros Hinv Hrun. induction Hrun as [|st1 st2 st3 Hstep _ IH]; [done|].
  apply IH. clear IH. unfold replay_inv in *.
  unfold decode_step in Hstep. destruct (decode_cond _ _ _); [|done].
  assert (ds_offset st1 = (entry_size * length (bb_entries st1))%nat) as Hoff.
  { rewrite Hinv at 1. rewrite ds_offset_foldl_push, length_records_at.
    simpl. lia. }
  apply (decode_body_record_at _ _ _ _ Hoff) in Hstep as ->.
  rewrite bb_entries_push, length_app. cbn [length].
  rewrite Nat.add_1_r, records_at_S, foldl_app. cbn [foldl].
  by rewrite <- Hinv.
Qed.

Lemma decode_replay d c t :
  decode d c t
  = foldl (push_entry t) decode_init (records_at d (records_read d c)).
Proof.
  destruct (decode_loop_run d c t decode_init) as [Hrun _].
  assert (replay_inv d t decode_init) as Hinit by done.
  pose proof (replay_inv_run _ _ _ _ _ Hinit Hrun) as Hfin.
  fold (decode d c t) in Hfin. unfold replay_inv in Hfin.
  pose proof (decode_count d c t) as Hcount.
  assert (length (bb_entries (decode d c t)) = records_read d c) as Hn.
  { unfold records_read. change (Z.of_nat entry_size) with 8.
    assert (0 <= Z.of_nat (length d) / 8) by (apply Z.div_pos; lia). lia. }
  by rewrite Hn in Hfin.
Qed.

(** Extra X1. Whatever the bytes, the count and the target id: the
    entries are the records laid out in the stream, as many as the count
    and the length allow; the target blocks are the entries whose module id
    is the target's, in order; the covered set is the union of the byte
    ranges of the target blocks alone. *)
Theorem decode_aggregates (binary_data : list ascii) (bb_count target_id : Z) :
  let st := decode binary_data bb_count target_id in
  bb_entries st = records_at binary_data (records_read binary_data bb_count)
  /\ target_bbs st = target_blocks target_id (bb_entries st)
  /\ target_bytes_covered st = cover ∅ (target_bbs st)
  /\ (forall a, a ∈ target_bytes_covered st <->
        exists r, r ∈ bb_entries st /\ bb_module_id r = target_id
                  /\ bb_offset r <= a < bb_offset r + bb_size r)
  /\ (length (target_bbs st) <= length (bb_entries st))%nat.
Proof.
  intros st. subst st. rewrite decode_replay.
  set (rs := records_at binary_data (records_read binary_data bb_count)).
  destruct (foldl_push_aggregates target_id rs decode_init) as [Hbbs Hcov].
  rewrite bb_entries_foldl_push, Hbbs, Hcov. simpl.
  split; [done|]. split; [done|]. split; [done|]. split.
  - intros a. rewrite elem_of_cover. unfold target_blocks, block_bytes.
    split.
    + intros [H|(bb & Hbb & Ha)]; [by apply not_elem_of_empty in H|].
      apply list_elem_of_fmap in Hbb as (r & -> & Hr).
      apply list_elem_of_filter in Hr as [Hid Hr].
      apply elem_of_seqZ in Ha. simpl in Ha. eauto.
    + intros (r & Hr & Hid & Ha). right.
      exists (mkTB (bb_offset r) (bb_size r)). split.
      * apply list_elem_of_fmap. exists r. split; [done|].
        by apply list_elem_of_filter.
      * apply elem_of_seqZ. simpl. lia.
  - unfold target_blocks. rewrite length_map. apply length_filter.
Qed.

Lemma le_value_bound bs : 0 <= le_value bs < 256 ^ Z.of_nat (length bs).
Proof.
  induction bs as [|b bs IH]; [simpl; lia|].
  cbn [le_value length]. rewrite Nat2Z.inj_succ, Z.pow_succ_r by lia.
  pose proof (byte_val_range b). lia.
Qed.

Lemma record_at_range d i :
  0 <= bb_offset (record_at d i) < 2 ^ 32
  /\ 0 <= bb_size (record_at d i) < 2 ^ 16
  /\ 0 <= bb_module_id (record_at d i) < 2 ^ 16.
Proof.
  unfold record_at. cbn [bb_offset bb_size bb_module_id].
  assert (forall n bs, (length bs <= n)%nat ->
            0 <= le_value bs < 256 ^ Z.of_nat n) as Hb.
  { intros n bs Hn. pose proof (le_value_bound bs) as [H0 H1].
    split; [done|]. eapply Z.lt_le_trans; [exact H1|].
    apply Z.pow_le_mono_r; lia. }
  split; [|split].
  - apply (Hb 4%nat). rewrite length_take. lia.
  - apply (Hb 2%nat). rewrite length_take. lia.
  - apply (Hb 2%nat). rewrite length_take. lia.
Qed.

Lemma length_bind_block_bytes bbs :
  Forall (fun bb => 0 <= tb_size bb <= 65535) bbs ->
  Z.of_nat (length (bbs ≫= block_bytes)) <= 65535 * Z.of_nat (length bbs).
Proof.
  induction 1 as [|bb bbs Hbb Hbbs IH]; [simpl; lia|].
  rewrite bind_cons, length_app. unfold block_bytes at 1.
  rewrite length_seqZ. cbn [length]. lia.
Qed.

(** Extra X2. The decoded blocks are unsigned 16-bit sizes at unsigned
    32-bit offsets, so every covered offset lies in [0, 2^32 + 2^16 - 3]
    and the number of covered bytes is at most 65535 times the number of
    target blocks. *)
Theorem covered_bytes_bounds (binary_data : list ascii)
    (bb_count target_id : Z) :
  let st := decode binary_data bb_count target_id in
  Forall well_formed_record (bb_entries st)
  /\ (forall a, a ∈ target_bytes_covered st -> 0 <= a <= 2 ^ 32 + 2 ^ 16 - 3)
  /\ Z.of_nat (size (target_bytes_covered st))
     <= 65535 * Z.of_nat (length (target_bbs st)).
Proof.
  intros st. subst st. rewrite decode_replay.
  set (rs := records_at binary_data (records_read binary_data bb_count)).
  assert (Forall well_formed_record rs) as Hwf.
  { apply Forall_forall. intros r Hr. unfold rs, records_at in Hr.
    apply list_elem_of_fmap in Hr as (i & -> & _). apply record_at_range. }
  destruct (foldl_push_aggregates target_id rs decode_init) as [Hbbs Hcov].
  rewrite bb_entries_foldl_push, Hbbs, Hcov. simpl.
  split; [done|]. split.
  - intros a. rewrite elem_of_cover.
    intros [H|(bb & Hbb & Ha)]; [by apply not_elem_of_empty in H|].
    unfold target_blocks in Hbb.
    apply list_elem_of_fmap in Hbb as (r & -> & Hr).
    apply list_elem_of_filter in Hr as [_ Hr].
    rewrite Forall_forall in Hwf. destruct (Hwf r Hr) as (Ho & Hs & _).
    apply elem_of_seqZ in Ha. simpl in Ha. lia.
  - rewrite size_cover.
    set (bbs := target_blocks target_id rs).
    assert (Forall (fun bb => 0 <= tb_size bb <= 65535) bbs) as Hsz.
    { apply Forall_forall. intros bb Hbb. unfold bbs, target_blocks in Hbb.
      apply list_elem_of_fmap in Hbb as (r & -> & Hr).
      apply list_elem_of_filter in Hr as [_ Hr].
      rewrite Forall_forall in Hwf. destruct (Hwf r Hr) as (_ & Hs & _).
      simpl. lia. }
    pose proof (length_bind_block_bytes bbs Hsz) as Hlen.
    assert (length (remove_dups (bbs ≫= block_bytes))
            <= length (bbs ≫= block_bytes))%nat as Hdup.
    { apply submseteq_length, NoDup_submseteq; [apply NoDup_remove_dups|].
      intros x. by rewrite elem_of_remove_dups. }
    lia.
Qed.

Lemma record_at_app d extra i :
  (entry_size * (i + 1) <= length d)%nat ->
  record_at (d ++ extra) i = record_at d i.
Proof.
  intros Hi. unfold record_at.
  assert (take entry_size (drop (entry_size * i) (d ++ extra))
          = take entry_size (drop (entry_size * i) d)) as ->; [|done].
  rewrite drop_app_le by lia. rewrite take_app_le; [done|].
  rewrite length_drop. unfold entry_size in *. lia.
Qed.

Lemma records_at_extend d extra n n' :
  (n <= n')%nat -> (entry_size * n <= length d)%nat ->
  exists more, records_at (d ++ extra) n' = records_at d n ++ more.
Proof.
  intros Hn Hlen.
  exists (map (record_at (d ++ extra)) (seq n (n' - n))).
  unfold records_at.
  replace n' with (n + (n' - n))%nat at 1 by lia.
  rewrite seq_app, map_app. f_equal.
  apply map_ext_in. intros i Hi%in_seq. apply record_at_app.
  unfold entry_size in *. lia.
Qed.

(** Extra X3. Reading more never loses anything: with a count at least
    as large and any bytes appended to the stream, the entries and the
    target blocks of the shorter run are prefixes of those of the longer
    one, and the covered set of the shorter run is included in that of the
    longer one. *)
Theorem decode_monotone (binary_data extra : list ascii)
    (bb_count bb_count' target_id : Z) :
  bb_count <= bb_count' ->
  let st := decode binary_data bb_count target_id in
  let st' := decode (binary_data ++ extra) bb_count' target_id in
  bb_entries st `prefix_of` bb_entries st'
  /\ target_bbs st `prefix_of` target_bbs st'
  /\ target_bytes_covered st ⊆ target_bytes_covered st'
  /\ (size (target_bytes_covered st) <= size (target_bytes_covered st'))%nat.
Proof.
  intros Hc st st'. subst st st'. rewrite !decode_replay.
  set (n := records_read binary_data bb_count).
  set (n' := records_read (binary_data ++ extra) bb_count').
  assert (0 <= Z.of_nat (length binary_data) / 8) as Hq
    by (apply Z.div_pos; lia).
  assert (Z.of_nat (length binary_data) / 8
          <= Z.of_nat (length (binary_data ++ extra)) / 8) as Hq'.
  { apply Z.div_le_mono; [lia|]. rewrite length_app. lia. }
  assert (n <= n')%nat as Hn.
  { unfold n, n', records_read. change (Z.of_nat entry_size) with 8. lia. }
  assert (entry_size * n <= length binary_data)%nat as Hlen.
  { unfold n, records_read. change (Z.of_nat entry_size) with 8.
    pose proof (Z.mul_div_le (Z.of_nat (length binary_data)) 8 ltac:(lia)).
    unfold entry_size. lia. }
  destruct (records_at_extend binary_data extra n n' Hn Hlen) as [more ->].
  rewrite foldl_app.
  set (st := foldl (push_entry target_id) decode_init (records_at binary_data n)).
  destruct (foldl_push_aggregates target_id more st) as [Hbbs Hcov].
  rewrite bb_entries_foldl_push, Hbbs, Hcov.
  assert (target_bytes_covered st
          ⊆ cover (target_bytes_covered st) (target_blocks target_id more))
    as Hsub.
  { intros a Ha. apply elem_of_cover. by left. }
  split; [by eexists|]. split; [by eexists|]. split; [done|].
  by apply subseteq_size.
Qed.

Lemma decode_monotone_witness :
  let binary_data := encode_records [mkBB 0 256 16] in
  let extra := encode_records [mkBB 0 512 4] in
  1 <= 2
  /\ bb_entries (decode binary_data 1 0)
       `prefix_of` bb_entries (decode (binary_data ++ extra) 2 0)
  /\ size (target_bytes_covered (decode binary_data 1 0)) = 16%nat
  /\ size (target_bytes_covered (decode (binary_data ++ extra) 2 0)) = 20%nat.
Proof.
  intros binary_data extra.
  assert (1 <= 2) as H12 by lia.
  split; [exact H12|]. split.
  - exact (proj1 (decode_monotone binary_data extra 1 2 0 H12)).
  - split; vm_compute; reflexivity.
Defined.

(** ** The module table and the BB-table header *)

Lemma for_each_app {A S} (body : S -> A -> run S) l1 l2 st :
  for_each body st (l1 ++ l2)
  = bind (for_each body st l1) (fun st' => for_each body st' l2).
Proof.
  revert st. induction l1 as [|x l1 IH]; intros st.
  - simpl. by destruct (for_each body st l2).
  - cbn [app for_each]. destruct (body st x) as [out [st1|e]]; [|done].
    simpl. rewrite IH.
    destruct (for_each body st1 l1) as [out1 [st2|e]]; simpl.
    + destruct (for_each body st2 l2). by rewrite (assoc_L (++)).
    + done.
Qed.

Lemma find_char_None s c : find s [c] = None <-> c ∉ s.
Proof.
  rewrite find_None. split.
  - intros Hno Hin. apply list_elem_of_split in Hin as (pre & post & ->).
    by apply (Hno pre post).
  - intros Hnin pre post ->. apply Hnin.
    apply elem_of_app. right. apply list_elem_of_here.
Qed.

Section table_and_header.
Context `{!TextBuiltins} `{!Collaborators}.

(** Extra X4. A trace that has the marker and a module table that reads
    without error but has no row whose path matches ends with the
    target-not-found line as its only output and returns [None]. *)
Theorem no_target_fails (content : str) (local_dll_path : option str)
    (text_end : nat) (out : list diag) (st : table_state) :
  find content BB_MARKER = Some text_end ->
  read_module_table content text_end = (out, Value st) ->
  matching_rows (prologue_lines content text_end) = [] ->
  parse_drcov_file content local_dll_path = ([FailNoTarget], Value None).
Proof.
  intros Hfind Hrun Hrows. unfold parse_drcov_file. rewrite Hfind, Hrun.
  unfold read_module_table in Hrun.
  apply for_each_process_line in Hrun as [Htarget ->].
  rewrite Hrows in *. simpl in Htarget. cbn [bind map app].
  by rewrite Htarget.
Qed.

(** Extra X5. A ["Module Table:"] line whose text after ["count"] is not
    an integer makes [int] raise: the [ValueError] leaves
    [parse_drcov_file], after the lines before it have been processed and
    without any later line being looked at. *)
Theorem bad_module_count_raises (content : str) (local_dll_path : option str)
    (text_end : nat) (before after : list str) (header p1 : str)
    (out : list diag) (st : table_state) :
  find content BB_MARKER = Some text_end ->
  prologue_lines content text_end = before ++ header :: after ->
  for_each process_line table_init before = (out, Value st) ->
  startswith header (lit "Module Table:") = true ->
  split header (lit "count") !! 1%nat = Some p1 ->
  py_int 10 (py_strip p1) = None ->
  parse_drcov_file content local_dll_path = (out, Raise ValueError).
Proof.
  intros Hfind Hlines Hbefore Hhdr Hp1 Hint.
  unfold parse_drcov_file, read_module_table. rewrite Hfind, Hlines.
  rewrite for_each_app, Hbefore. cbn [bind for_each].
  unfold process_line at 1. rewrite Hhdr, Hp1, Hint. simpl.
  by rewrite app_nil_r.
Qed.

(** Extra X6. A line that is not a ["Module Table:"] header and that
    does not look like a row, or has fewer than ten comma-separated
    fields, or whose id, start or end field is not an integer, is skipped:
    nothing is printed, nothing is raised and the table is unchanged. *)
Theorem malformed_row_skipped (st : table_state) (line : str) :
  startswith line (lit "Module Table:") = false ->
  let parts := map py_strip (split line (lit ",")) in
  looks_like_row line = false
  \/ (length parts < 10)%nat
  \/ parts !! 0%nat ≫= py_int 10 = None
  \/ parts !! 2%nat ≫= py_int 16 = None
  \/ parts !! 3%nat ≫= py_int 16 = None ->
  process_line st line = ([], Value st).
Proof.
  intros Hhdr parts Hbad. unfold process_line. rewrite Hhdr.
  assert (module_row line = None) as ->; [|done].
  unfold module_row. fold parts.
  destruct (looks_like_row line); [|done].
  destruct Hbad as [Hx|[Hx|Hx]]; [done| |].
  - rewrite bool_decide_eq_false_2 by lia. done.
  - case_bool_decide; [|done]. unfold parse_row.
    destruct (parts !! 0%nat) as [p0|]; [|done].
    destruct (parts !! 2%nat) as [p2|]; [|done].
    destruct (parts !! 3%nat) as [p3|]; [|done].
    simpl in Hx.
    destruct Hx as [->|[Hx|Hx]]; [done| |].
    + rewrite Hx. by destruct (py_int 10 p0).
    + rewrite Hx. by destruct (py_int 10 p0), (py_int 16 p2).
Qed.
End table_and_header.

Lemma no_target_fails_witness :
  exists text_end out st,
    find other_module_trace BB_MARKER = Some text_end
    /\ @read_module_table ascii_builtins other_module_trace text_end
       = (out, Value st)
    /\ @matching_rows ascii_builtins
         (@prologue_lines ascii_builtins other_module_trace text_end) = []
    /\ @parse_drcov_file ascii_builtins (sample_collaborators 168232 [])
         other_module_trace None
       = ([FailNoTarget], Value None).
Proof.
  destruct (find other_module_trace BB_MARKER) as [text_end|] eqn:Hfind;
    [|vm_compute in Hfind; discriminate].
  destruct (@read_module_table ascii_builtins other_module_trace text_end)
    as [out [st|e]] eqn:Hrun;
    [|exfalso; vm_compute in Hfind; injection Hfind as <-;
      vm_compute in Hrun; discriminate].
  assert (@matching_rows ascii_builtins
            (@prologue_lines ascii_builtins other_module_trace text_end) = [])
    as Hrows.
  { vm_compute in Hfind. injection Hfind as <-. vm_compute. reflexivity. }
  exists text_end, out, st.
  split; [reflexivity|]. split; [exact Hrun|]. split; [exact Hrows|].
  exact (@no_target_fails ascii_builtins (sample_collaborators 168232 [])
           other_module_trace None text_end out st Hfind Hrun Hrows).
Defined.

Lemma bad_module_count_raises_witness :
  @parse_drcov_file ascii_builtins (sample_collaborators 168232 [])
    bad_module_count_trace None
  = ([], Raise ValueError).
Proof.
  apply (@bad_module_count_raises ascii_builtins
           (sample_collaborators 168232 []) bad_module_count_trace None
           106%nat [lit "DRCOV VERSION: 2"]
           [lit "0,0,0x10000000,0x10020000,0,0,0,0,0,C:\lib\target.dll"]
           (lit "Module Table: version 2, count two") (lit " two")
           [] table_init);
    vm_compute; reflexivity.
Defined.

Lemma malformed_row_skipped_witness :
  @process_line ascii_builtins table_init (lit "7, short, row")
  = ([], Value table_init).
Proof.
  apply (@malformed_row_skipped ascii_builtins table_init
           (lit "7, short, row")).
  - vm_compute. reflexivity.
  - right. left. vm_compute. lia.
Defined.

Section bb_header.
Context `{!TextBuiltins} `{!Collaborators}.

Lemma bbs_scan_first parts i tok : forall k rest,
  drop k parts = rest ->
  (k <= i)%nat ->
  parts !! i = Some (lit "bbs") ->
  (0 < i)%nat ->
  (forall j, (k <= j < i)%nat -> (0 < j)%nat -> parts !! j <> Some (lit "bbs")) ->
  parts !! (i - 1)%nat = Some tok ->
  bbs_scan parts k rest
  = match py_int 10 tok with
    | Some n => ret n
    | None => raise ValueError
    end.
Proof.
  intros k rest. revert k.
  induction rest as [|p rest IH]; intros k Hdrop Hki Hi Hpos Hfirst Htok.
  - apply (f_equal length) in Hdrop. rewrite length_drop in Hdrop.
    apply lookup_lt_Some in Hi. simpl in Hdrop. lia.
  - assert (parts !! k = Some p) as Hk.
    { rewrite <- (Nat.add_0_r k), <- lookup_drop, Hdrop. done. }
    assert (drop (S k) parts = rest) as Hdrop'.
    { rewrite <- Nat.add_1_r, <- drop_drop, Hdrop. done. }
    cbn [bbs_scan].
    destruct (decide (k = i)) as [->|Hne].
    + rewrite Hi in Hk. injection Hk as <-.
      rewrite !bool_decide_eq_true_2 by done. cbn [andb]. by rewrite Htok.
    + assert (bool_decide (p = lit "bbs") && bool_decide (0 < k)%nat = false)
        as ->.
      { apply andb_false_iff.
        destruct (decide (0 < k)%nat) as [Hk0|Hk0].
        - left. apply bool_decide_eq_false. intros ->.
          by apply (Hfirst k ltac:(lia) Hk0).
        - right. by apply bool_decide_eq_false. }
      apply IH; try done; [lia|]. intros j Hj. apply Hfirst. lia.
Qed.

Lemma bbs_scan_none parts : forall k rest,
  drop k parts = rest ->
  (forall j, (k <= j)%nat -> (0 < j)%nat -> parts !! j <> Some (lit "bbs")) ->
  bbs_scan parts k rest = ret 0.
Proof.
  intros k rest. revert k.
  induction rest as [|p rest IH]; intros k Hdrop Hnone; [done|].
  assert (parts !! k = Some p) as Hk.
  { rewrite <- (Nat.add_0_r k), <- lookup_drop, Hdrop. done. }
  assert (drop (S k) parts = rest) as Hdrop'.
  { rewrite <- Nat.add_1_r, <- drop_drop, Hdrop. done. }
  cbn [bbs_scan].
  assert (bool_decide (p = lit "bbs") && bool_decide (0 < k)%nat = false)
    as ->.
  { apply andb_false_iff.
    destruct (decide (0 < k)%nat) as [Hk0|Hk0].
    - left. apply bool_decide_eq_false. intros ->.
      by apply (Hnone k ltac:(lia) Hk0).
    - right. by apply bool_decide_eq_false. }
  apply IH; [done|]. intros j Hj. apply Hnone. lia.
Qed.

Lemma read_bb_count_header content text_end header binary_data :
  drop text_end content = BB_MARKER ++ header ++ newline :: binary_data ->
  newline ∉ BB_MARKER ++ header ->
  read_bb_count content text_end
  = let parts := py_words (BB_MARKER ++ header ++ [newline]) in
    bbs_scan parts 0 parts.
Proof.
  intros Hdrop Hnl. unfold read_bb_count.
  destruct (trace_binary_data _ _ _ _ Hdrop Hnl) as [-> _].
  assert (contains (BB_MARKER ++ header ++ [newline]) BB_MARKER = true)
    as ->; [|done].
  apply contains_spec. by exists [], (header ++ [newline]).
Qed.

(** Extra X7. In a trace whose marker line ends with a newline, the
    basic-block count is the integer value of the word that precedes the
    first word ["bbs"] of that line (a ["bbs"] that is the very first word
    does not count); it is 0 when the line has no such word; and when the
    preceding word is not an integer, [int] raises [ValueError]. *)
Theorem bb_count_is_word_before_bbs (content : str) (text_end : nat)
    (header binary_data : str) :
  drop text_end content = BB_MARKER ++ header ++ newline :: binary_data ->
  newline ∉ BB_MARKER ++ header ->
  let parts := py_words (BB_MARKER ++ header ++ [newline]) in
  (forall i tok,
     parts !! i = Some (lit "bbs") -> (0 < i)%nat ->
     (forall j, (0 < j < i)%nat -> parts !! j <> Some (lit "bbs")) ->
     parts !! (i - 1)%nat = Some tok ->
     read_bb_count content text_end
     = match py_int 10 tok with
       | Some n => ([], Value n)
       | None => ([], Raise ValueError)
       end)
  /\ ((forall j, (0 < j)%nat -> parts !! j <> Some (lit "bbs")) ->
      read_bb_count content text_end = ([], Value 0)).
Proof.
  intros Hdrop Hnl parts.
  rewrite (read_bb_count_header _ _ _ _ Hdrop Hnl). fold parts. cbv zeta.
  split.
  - intros i tok Hi Hpos Hfirst Htok.
    rewrite (bbs_scan_first parts i tok 0 parts);
      [by destruct (py_int 10 tok)|done|lia|done|done| |done].
    intros j Hj Hj0. apply Hfirst. lia.
  - intros Hnone. apply bbs_scan_none; [done|]. intros j _. apply Hnone.
Qed.

(** Extra X8. When the marker is never followed by a newline, the header
    line is taken to be empty: the count is 0, the binary data is the whole
    file, and the loop reads no record from it. *)
Theorem unterminated_header_reads_nothing (content : str) (text_end : nat)
    (target_id : Z) :
  newline ∉ drop text_end content ->
  bb_header_end content text_end = 0%nat
  /\ read_bb_count content text_end = ([], Value 0)
  /\ drop (bb_header_end content text_end) content = content
  /\ decode content 0 target_id = decode_init.
Proof.
  intros Hnl.
  assert (bb_header_end content text_end = 0%nat) as Hend.
  { unfold bb_header_end, find_from. case_decide; [|done].
    by rewrite (proj2 (find_char_None _ _) Hnl). }
  split; [done|]. split; [|split].
  - unfold read_bb_count, slice. rewrite Hend.
    replace (0 - text_end)%nat with 0%nat by lia. done.
  - by rewrite Hend.
  - rewrite decode_replay. unfold records_read.
    assert (0 <= Z.of_nat (length content) / Z.of_nat entry_size)
      by (apply Z.div_pos; unfold entry_size; lia).
    by rewrite Z.min_l, Z2Nat.inj_0 by done.
Qed.

(** Extra X9. When the target module has been found and the word before
    ["bbs"] in the header is not an integer, the [ValueError] raised by
    [int] leaves [parse_drcov_file]: the output stops after the module
    table and no report is made. *)
Theorem bad_bb_count_raises (content : str) (local_dll_path : option str)
    (text_end : nat) (out : list diag) (st : table_state) (target : Module) :
  find content BB_MARKER = Some text_end ->
  read_module_table content text_end = (out, Value st) ->
  target_module st = Some target ->
  read_bb_count content text_end = ([], Raise ValueError) ->
  parse_drcov_file content local_dll_path = (out, Raise ValueError).
Proof.
  intros Hfind Hrun Htarget Hcount.
  unfold parse_drcov_file. rewrite Hfind, Hrun. cbn [bind].
  rewrite Htarget. unfold analyse_target. rewrite Hcount. simpl.
  by rewrite app_nil_r.
Qed.
End bb_header.

Lemma bb_count_is_word_before_bbs_witness :
  @read_bb_count ascii_builtins scenario_trace 104 = ([], Value 1)
  /\ @read_bb_count ascii_builtins bad_bb_count_trace 104
     = ([], Raise ValueError).
Proof.
  split.
  - assert (drop 104 scenario_trace
            = BB_MARKER ++ lit " 1 bbs"
              ++ newline :: encode_records [mkBB 0 256 16]) as Hdrop
      by (vm_compute; reflexivity).
    assert (newline ∉ BB_MARKER ++ lit " 1 bbs") as Hnl
      by (apply find_char_None; vm_compute; reflexivity).
    apply (proj1 (@bb_count_is_word_before_bbs ascii_builtins scenario_trace
                    104 _ _ Hdrop Hnl) 3%nat (lit "1")).
    + vm_compute. reflexivity.
    + lia.
    + intros j Hj. assert (j = 1 \/ j = 2)%nat as [-> | ->] by lia;
        vm_compute; discriminate.
    + vm_compute. reflexivity.
  - assert (drop 104 bad_bb_count_trace
            = BB_MARKER ++ lit " many bbs"
              ++ newline :: encode_records [mkBB 0 256 16]) as Hdrop
      by (vm_compute; reflexivity).
    assert (newline ∉ BB_MARKER ++ lit " many bbs") as Hnl
      by (apply find_char_None; vm_compute; reflexivity).
    apply (proj1 (@bb_count_is_word_before_bbs ascii_builtins
                    bad_bb_count_trace 104 _ _ Hdrop Hnl) 3%nat (lit "many")).
    + vm_compute. reflexivity.
    + lia.
    + intros j Hj. assert (j = 1 \/ j = 2)%nat as [-> | ->] by lia;
        vm_compute; discriminate.
    + vm_compute. reflexivity.
Defined.

Lemma unterminated_header_reads_nothing_witness :
  (newline ∉ drop 71 unterminated_header_trace)
  /\ @read_bb_count ascii_builtins unterminated_header_trace 71
     = ([], Value 0)
  /\ exists rep,
       (@parse_drcov_file ascii_builtins (sample_collaborators 168232 [])
          unterminated_header_trace None).2 = Value (Some rep)
       /\ rep_total_bbs rep = 0 /\ rep_bytes_covered rep = 0%nat.
Proof.
  assert (newline ∉ drop 71 unterminated_header_trace) as Hnl
    by (apply find_char_None; vm_compute; reflexivity).
  split; [exact Hnl|]. split.
  - exact (proj1 (proj2 (@unterminated_header_reads_nothing ascii_builtins
                           unterminated_header_trace 71 0 Hnl))).
  - eexists. vm_compute. repeat split.
Defined.

Lemma bad_bb_count_raises_witness :
  exists out,
    @parse_drcov_file ascii_builtins (sample_collaborators 168232 [])
      bad_bb_count_trace None
    = (out, Raise ValueError).
Proof.
  destruct (@read_module_table ascii_builtins bad_bb_count_trace 104)
    as [out [st|e]] eqn:Hrun; [|vm_compute in Hrun; discriminate].
  destruct (target_module st) as [target|] eqn:Htarget;
    [|vm_compute in Hrun; injection Hrun as _ <-; discriminate].
  exists out.
  apply (@bad_bb_count_raises ascii_builtins (sample_collaborators 168232 [])
           bad_bb_count_trace None 104 out st target).
  - vm_compute. reflexivity.
  - exact Hrun.
  - exact Htarget.
  - vm_compute. reflexivity.
Defined.

(** ** The export loop *)

Lemma export_loop_fold export_addrs bbs names : forall hit missed,
  foldl (fun '(exports_hit, exports_missed) func_name =>
           match export_status_of export_addrs bbs func_name with
           | Hit => (exports_hit + 1, exports_missed)
           | NotHit | NotFound => (exports_hit, exports_missed ++ [func_name])
           end) (hit, missed) names
  = (hit + Z.of_nat (length (filter (fun f =>
                       export_status_of export_addrs bbs f = Hit) names)),
     missed ++ filter (fun f => export_status_of export_addrs bbs f <> Hit)
                 names).
Proof.
  induction names as [|f names IH]; intros hit missed.
  - simpl. by rewrite Z.add_0_r, app_nil_r.
  - cbn [foldl]. rewrite !filter_cons.
    destruct (export_status_of export_addrs bbs f) eqn:Hf; rewrite IH.
    + rewrite decide_True, decide_False by (done || by intros []).
      cbn [length]. f_equal. lia.
    + rewrite decide_False, decide_True by done.
      by rewrite <- (assoc_L (++)).
    + rewrite decide_False, decide_True by done.
      by rewrite <- (assoc_L (++)).
Qed.

Lemma filter_none {A} (P : A -> Prop) `{!forall x, Decision (P x)} (l : list A) :
  (forall x, ~ P x) -> filter P l = [].
Proof.
  intros HP. induction l as [|x l IH]; [done|].
  by rewrite filter_cons, decide_False.
Qed.

Lemma filter_all {A} (P : A -> Prop) `{!forall x, Decision (P x)} (l : list A) :
  (forall x, P x) -> filter P l = l.
Proof.
  intros HP. induction l as [|x l IH]; [done|].
  by rewrite filter_cons, decide_True, IH.
Qed.

(** Extra X10. The export loop counts every name once: the names hit and
    the names missed add up to all the names, the names missed are, in
    order, the names not reported hit (not hit or not found), and the
    number of hits lies between 0 and the number of names; over
    [EXPORT_FUNCTIONS] they add up to 29. *)
Theorem export_loop_counts (export_addrs : list (string * Z))
    (target_bbs : list TargetBlock) (names : list string) :
  let '(exports_hit, exports_missed) :=
    export_loop export_addrs target_bbs names in
  exports_hit + Z.of_nat (length exports_missed) = Z.of_nat (length names)
  /\ exports_missed
     = filter (fun f => export_status_of export_addrs target_bbs f <> Hit) names
  /\ exports_hit
     = Z.of_nat (length (filter (fun f =>
         export_status_of export_addrs target_bbs f = Hit) names))
  /\ 0 <= exports_hit <= Z.of_nat (length names)
  /\ (names = EXPORT_FUNCTIONS ->
      exports_hit + Z.of_nat (length exports_missed) = 29).
Proof.
  unfold export_loop. rewrite export_loop_fold. cbn [app].
  set (P := fun f => export_status_of export_addrs target_bbs f = Hit).
  assert (length (filter P names)
          + length (filter (fun f => ~ P f) names) = length names)%nat as Hsum.
  { rewrite <- length_app. apply Permutation_length, filter_app_complement. }
  pose proof (length_filter P names) as Hle.
  split; [|split; [done|split; [done|split]]].
  - unfold P in *. lia.
  - lia.
  - intros ->. unfold P in *. simpl length in *. lia.
Qed.

(** Extra X11. Without target blocks, or with an empty export table, no
    export is hit: the count of hits is 0 and every name is missed. *)
Theorem nothing_hit_without_blocks (export_addrs : list (string * Z))
    (target_bbs : list TargetBlock) (names : list string) :
  target_bbs = [] \/ export_addrs = [] ->
  export_loop export_addrs target_bbs names = (0, names)
  /\ forall f, export_status_of export_addrs target_bbs f <> Hit.
Proof.
  intros Hempty.
  assert (forall f, export_status_of export_addrs target_bbs f <> Hit) as Hno.
  { intros f. unfold export_status_of.
    destruct Hempty as [-> | ->]; [|done].
    by destruct (dict_get export_addrs f). }
  split; [|done].
  unfold export_loop. rewrite export_loop_fold. cbn [app].
  by rewrite filter_none, filter_all.
Qed.

Lemma nothing_hit_without_blocks_witness :
  (([] : list TargetBlock) = [] \/ [("Aud_InitDll"%string, 256)] = [])
  /\ export_loop [("Aud_InitDll"%string, 256)] [] EXPORT_FUNCTIONS
     = (0, EXPORT_FUNCTIONS).
Proof.
  assert (([] : list TargetBlock) = [] \/ [("Aud_InitDll"%string, 256)] = [])
    as Hempty by (left; reflexivity).
  split; [exact Hempty|].
  exact (proj1 (nothing_hit_without_blocks _ _ EXPORT_FUNCTIONS Hempty)).
Defined.

(** ** The application-code window and the gap listing *)

Lemma py_max_spec l m :
  py_max l = Some m -> m ∈ l /\ forall x, x ∈ l -> x <= m.
Proof.
  destruct l as [|x0 l]; [done|]. simpl. intros [= <-].
  revert x0. induction l as [|y l IH]; intros x0; simpl.
  - split; [apply list_elem_of_here|].
    intros x ->%list_elem_of_singleton. lia.
  - destruct (IH (Z.max x0 y)) as [Hin Hle]. split.
    + apply elem_of_cons in Hin as [Hin|Hin].
      * rewrite Hin. destruct (Z.max_spec x0 y) as [[_ ->]|[_ ->]].
        -- apply list_elem_of_further, list_elem_of_here.
        -- apply list_elem_of_here.
      * by do 2 apply list_elem_of_further.
    + intros x Hx.
      assert (Z.max x0 y <= foldl Z.max (Z.max x0 y) l) as Hm
        by (apply Hle, list_elem_of_here).
      apply elem_of_cons in Hx as [->|Hx]; [lia|].
      apply elem_of_cons in Hx as [->|Hx]; [lia|].
      apply Hle. by apply list_elem_of_further.
Qed.

Lemma print_each_spec {A} (line : A -> diag) l :
  print_each line l = (map line l, Value tt).
Proof.
  unfold print_each. induction l as [|x l IH]; [done|].
  cbn [for_each map]. unfold print at 1. cbn [bind]. by rewrite IH.
Qed.

Lemma size_py_range lo hi :
  size (list_to_set (py_range lo hi) : gset Z) = Z.to_nat (hi - lo).
Proof.
  unfold py_range. rewrite size_list_to_set by apply NoDup_seqZ.
  apply length_seqZ.
Qed.

Lemma app_bytes_in_window bbs lo hi :
  app_bytes_covered bbs lo hi ⊆ list_to_set (py_range lo hi).
Proof.
  intros a [Hw _]%elem_of_app_bytes_covered.
  by apply elem_of_list_to_set, elem_of_py_range.
Qed.

Lemma float_overflows_0 : float_overflows 0 = false.
Proof. reflexivity. Qed.

Lemma percent_of_spec num den :
  percent_of num den
  = ([], if float_overflows den then Raise OverflowError
         else if decide (den = 0) then Raise ZeroDivisionError
         else Value (Pct num den)).
Proof.
  unfold percent_of. destruct (float_overflows den); [done|].
  by case_decide.
Qed.

Lemma app_code_coverage_value export_addrs bbs lo hi :
  export_window export_addrs = Some (lo, hi) ->
  (app_code_coverage export_addrs bbs).2
  = if decide (hi - lo > 0)
    then if float_overflows (hi - lo) then Raise OverflowError
         else Value (Pct (Z.of_nat (size (app_bytes_covered bbs lo hi)))
                         (hi - lo))
    else Value PctZero.
Proof.
  intros Hw. unfold app_code_coverage. rewrite Hw. cbv zeta.
  case_decide as Hpos.
  - rewrite percent_of_spec. destruct (float_overflows (hi - lo)); [done|].
    rewrite decide_False by lia. cbn [bind]. unfold print at 1. cbn [bind].
    destruct (uncovered lo hi _) as [|a l]; [done|].
    unfold print at 1. cbn [bind]. rewrite print_each_spec. done.
  - unfold ret at 1. cbn [bind]. unfold print at 1. cbn [bind].
    destruct (uncovered lo hi _) as [|a l]; [done|].
    unfold print at 1. cbn [bind]. rewrite print_each_spec. done.
Qed.

Lemma app_code_coverage_in_range export_addrs bbs :
  (forall lo hi, export_window export_addrs = Some (lo, hi) ->
                 float_overflows (hi - lo) = false) ->
  exists p, (app_code_coverage export_addrs bbs).2 = Value p.
Proof.
  intros Hfits. destruct (export_window export_addrs) as [[lo hi]|] eqn:Hw.
  - rewrite (app_code_coverage_value _ _ _ _ Hw), (Hfits _ _ eq_refl).
    case_decide; eauto.
  - unfold app_code_coverage. rewrite Hw. simpl. eauto.
Qed.

(** Extra X12. For a non-empty export table the window starts at the
    smallest export address and ends 512 past the largest one: both are
    addresses of the table and every address of the table lies between
    them. The window is therefore at least 512 bytes long and the guard
    against an empty window never fires: the application coverage is the
    quotient of the covered bytes of the window by its length, unless that
    length is beyond the range of a float, in which case the division
    raises [OverflowError]. The covered bytes of the window are covered
    bytes of the module, and they are never more than the window holds. *)
Theorem app_window_never_empty (export_addrs : list (string * Z))
    (target_bbs : list TargetBlock) :
  export_addrs <> [] ->
  exists lo hi,
    export_window export_addrs = Some (lo, hi)
    /\ (exists n, (n, lo) ∈ export_addrs)
    /\ (exists n, (n, hi - 512) ∈ export_addrs)
    /\ (forall n a, (n, a) ∈ export_addrs -> lo <= a <= hi - 512)
    /\ 512 <= hi - lo
    /\ let app := app_bytes_covered target_bbs lo hi in
       (app_code_coverage export_addrs target_bbs).2
         = (if float_overflows (hi - lo) then Raise OverflowError
            else Value (Pct (Z.of_nat (size app)) (hi - lo)))
       /\ Z.of_nat (size app) <= hi - lo
       /\ app ⊆ cover ∅ target_bbs.
Proof.
  intros Hne.
  destruct (export_window_nonempty _ Hne) as (lo & hi & Hw).
  exists lo, hi. split; [done|].
  pose proof Hw as Hw'. unfold export_window in Hw'.
  destruct (py_min (map snd export_addrs)) as [m|] eqn:Hmin; [|done].
  destruct (py_max (map snd export_addrs)) as [M|] eqn:Hmax; [|done].
  injection Hw' as <- <-.
  apply py_min_spec in Hmin as [Hmin_in Hmin_le].
  apply py_max_spec in Hmax as [Hmax_in Hmax_le].
  assert (m <= M) as HmM by (by apply Hmin_le).
  split.
  { apply list_elem_of_fmap in Hmin_in as ([n a] & Ha & Hin).
    simpl in Ha. subst a. by exists n. }
  split.
  { apply list_elem_of_fmap in Hmax_in as ([n a] & Ha & Hin).
    simpl in Ha. subst a. exists n.
    replace (M + 512 - 512) with M by lia. exact Hin. }
  split; [|split; [lia|]].
  - intros n a Hin.
    assert (a ∈ map snd export_addrs) as Ha.
    { apply list_elem_of_fmap. by exists (n, a). }
    specialize (Hmin_le a Ha). specialize (Hmax_le a Ha). lia.
  - intros app. split; [|split].
    + rewrite (app_code_coverage_value _ _ _ _ Hw).
      by rewrite decide_True by lia.
    + pose proof (subseteq_size _ _ (app_bytes_in_window target_bbs m (M + 512)))
        as Hsz.
      rewrite size_py_range in Hsz. fold app in Hsz. lia.
    + intros a Ha. by apply elem_of_app_bytes_covered in Ha as [_ Ha].
Qed.

Lemma app_window_never_empty_witness :
  let export_addrs := [("Aud_InitDll", 4096); ("Aud_GetString", 4200)]%string in
  export_addrs <> []
  /\ export_window export_addrs = Some (4096, 4712)
  /\ (app_code_coverage export_addrs [mkTB 4096 16]).2 = Value (Pct 16 616).
Proof.
  intros export_addrs.
  assert (export_addrs <> []) as Hne by done.
  split; [exact Hne|].
  destruct (app_window_never_empty export_addrs [mkTB 4096 16] Hne)
    as (lo & hi & Hw & _ & _ & _ & _ & Hcov & _).
  assert (export_window export_addrs = Some (4096, 4712)) as Hw'
    by (vm_compute; reflexivity).
  split; [exact Hw'|].
  rewrite Hw' in Hw. injection Hw as <- <-. rewrite Hcov.
  vm_compute. reflexivity.
Defined.

Lemma sum_runs rest : forall s e,
  foldr Z.add 0 (map gap_length (runs s e rest))
  = (e - s + 1) + Z.of_nat (length rest).
Proof.
  induction rest as [|a rest IH]; intros s e.
  - simpl. unfold gap_length. simpl. lia.
  - cbn [runs]. case_decide as Ha.
    + rewrite IH. cbn [length]. lia.
    + cbn [map foldr]. rewrite IH. unfold gap_length. cbn [length]. simpl. lia.
Qed.

Lemma sum_Permutation (l1 l2 : list Z) :
  l1 ≡ₚ l2 -> foldr Z.add 0 l1 = foldr Z.add 0 l2.
Proof. induction 1; simpl; lia. Qed.

(** Extra X13. The gaps account for every uncovered byte of the window
    exactly once: their lengths add up to the number of uncovered
    addresses, and together with the covered bytes of the window that is
    the length of the window. *)
Theorem gaps_account_for_uncovered (export_min export_max : Z)
    (target_bbs : list TargetBlock) :
  let app := app_bytes_covered target_bbs export_min export_max in
  let gaps := coverage_gaps export_min export_max app in
  foldr Z.add 0 (map gap_length gaps)
    = Z.of_nat (length (uncovered export_min export_max app))
  /\ Z.of_nat (length (uncovered export_min export_max app))
     + Z.of_nat (size app)
     = Z.max 0 (export_max - export_min).
Proof.
  intros app gaps. split.
  - subst gaps. unfold coverage_gaps.
    rewrite (sum_Permutation _ (map gap_length
               (group_gaps (uncovered export_min export_max app)))).
    + destruct (uncovered export_min export_max app) as [|a l]; [done|].
      rewrite group_gaps_runs, sum_runs. cbn [length]. lia.
    + apply fmap_Permutation, py_sorted_perm.
  - unfold uncovered. rewrite (Permutation_length (py_sorted_perm id _)).
    change (length (elements ?X)) with (size X).
    rewrite size_difference by apply app_bytes_in_window.
    rewrite size_py_range.
    pose proof (subseteq_size _ _ (app_bytes_in_window target_bbs
                                     export_min export_max)) as Hsz.
    rewrite size_py_range in Hsz. fold app in Hsz |- *. lia.
Qed.

(** Extra X14. The listing shows at most ten gaps, and they are the
    longest ones: no gap left out of the listing is longer than a gap that
    is listed. *)
Theorem gap_report_lists_longest (export_addrs : list (string * Z))
    (export_min export_max : Z) (covered : gset Z) :
  let gaps := coverage_gaps export_min export_max covered in
  let listed := map fst (gap_report export_addrs gaps) in
  length listed = Nat.min 10 (length gaps)
  /\ listed ++ drop 10 gaps = gaps
  /\ forall g g', g ∈ listed -> g' ∈ drop 10 gaps ->
       gap_length g' <= gap_length g.
Proof.
  intros gaps listed.
  assert (listed = take 10 gaps) as ->.
  { unfold listed, gap_report. rewrite map_map. simpl. apply map_id. }
  split; [apply length_take|]. split; [apply take_drop|].
  intros g g' Hg Hg'.
  destruct (coverage_gaps_spec export_min export_max covered)
    as (_ & _ & _ & Hsorted).
  fold gaps in Hsorted. rewrite <- (take_drop 10 gaps) in Hsorted.
  pose proof (StronglySorted_app_1_elem_of _ _ _ g g' Hsorted Hg Hg').
  simpl in *. lia.
Qed.

(** ** The report *)

Lemma bind_snd {A B} (m : run A) (k : A -> run B) :
  (bind m k).2 = match m.2 with
                 | Value a => (k a).2
                 | Raise e => Raise e
                 end.
Proof. destruct m as [out [a|e]]; simpl; [|done]. by destruct (k a). Qed.

Section report.
Context `{!TextBuiltins} `{!Collaborators}.

Lemma parse_drcov_file_target content local_dll_path text_end out st target :
  find content BB_MARKER = Some text_end ->
  read_module_table content text_end = (out, Value st) ->
  target_module st = Some target ->
  (parse_drcov_file content local_dll_path).2
  = (analyse_target content text_end local_dll_path target).2.
Proof.
  intros Hfind Hrun Htarget. unfold parse_drcov_file.
  rewrite Hfind, Hrun. cbn [bind]. rewrite Htarget.
  by destruct (analyse_target _ _ _ _).
Qed.

Lemma analyse_target_outcome content text_end local_dll_path target out bb_count :
  read_bb_count content text_end = (out, Value bb_count) ->
  let ds := decode (drop (bb_header_end content text_end) content) bb_count
              (mod_id target) in
  let covered := Z.of_nat (size (target_bytes_covered ds)) in
  let info := get_text_section_info (dll_path_of local_dll_path target) in
  let exports := get_export_addresses (dll_path_of local_dll_path target) in
  (analyse_target content text_end local_dll_path target).2
  = if float_overflows (mod_size target) then Raise OverflowError
    else if decide (mod_size target = 0) then Raise ZeroDivisionError
    else if float_overflows info.2 then Raise OverflowError
    else if decide (info.2 = 0) then Raise ZeroDivisionError
    else match (app_code_coverage exports (target_bbs ds)).2 with
         | Value app_coverage =>
             Value (Some
               (mkReport target bb_count (length (target_bbs ds))
                  (size (target_bytes_covered ds))
                  (Pct covered info.2) app_coverage
                  (Pct (export_loop exports (target_bbs ds) EXPORT_FUNCTIONS).1
                       (Z.of_nat (length EXPORT_FUNCTIONS)))
                  (export_loop exports (target_bbs ds) EXPORT_FUNCTIONS).1
                  (length EXPORT_FUNCTIONS)))
         | Raise e => Raise e
         end.
Proof.
  intros Hcount ds covered info exports.
  subst ds covered info exports.
  unfold analyse_target. rewrite Hcount. cbn [bind]. cbv zeta.
  set (ds := decode _ bb_count (mod_id target)).
  set (exports := get_export_addresses _).
  destruct (app_code_coverage exports (target_bbs ds))
    as [out_app [app_coverage|e]];
    destruct (export_loop exports (target_bbs ds) EXPORT_FUNCTIONS)
      as [exports_hit exports_missed];
    destruct (get_text_section_info _) as [text_vma code_section_size];
    rewrite !percent_of_spec; cbn [snd];
    destruct local_dll_path as [[|c p]|];
    (destruct (float_overflows (mod_size target)); [reflexivity|]);
    (destruct (decide (mod_size target = 0)); [reflexivity|]);
    (destruct (float_overflows code_section_size); [reflexivity|]);
    (destruct (decide (code_section_size = 0)); [reflexivity|]);
    destruct (target_bbs ds);
    cbn [bind print ret snd fst app]; rewrite print_each_spec;
    cbn [bind print ret snd fst app]; reflexivity.
Qed.

(** Extra X15. Once the target module is found and the header count is
    read, a report is returned whenever the module size and the
    code-section size are not zero and are, like the length of the export
    window if there is one, within the range of a float. Then: the module
    of the report is the target module, [total_bbs] is the count announced
    by the header (not the number of records read), [target_bbs] and
    [bytes_covered] are those of the decoding loop, [coverage_percent] is
    the coverage of the code section, and the export figures are those of
    the export loop over the 29 expected names. *)
Theorem report_when_sizes_nonzero (content : str) (local_dll_path : option str)
    (text_end : nat) (out out' : list diag) (st : table_state)
    (target : Module) (bb_count : Z) :
  find content BB_MARKER = Some text_end ->
  read_module_table content text_end = (out, Value st) ->
  target_module st = Some target ->
  read_bb_count content text_end = (out', Value bb_count) ->
  mod_size target <> 0 ->
  float_overflows (mod_size target) = false ->
  (get_text_section_info (dll_path_of local_dll_path target)).2 <> 0 ->
  float_overflows
    (get_text_section_info (dll_path_of local_dll_path target)).2 = false ->
  (forall lo hi,
     export_window (get_export_addresses (dll_path_of local_dll_path target))
       = Some (lo, hi) ->
     float_overflows (hi - lo) = false) ->
  let ds := decode (drop (bb_header_end content text_end) content) bb_count
              (mod_id target) in
  let exports := get_export_addresses (dll_path_of local_dll_path target) in
  exists rep,
    (parse_drcov_file content local_dll_path).2 = Value (Some rep)
    /\ rep_module rep = target
    /\ rep_total_bbs rep = bb_count
    /\ rep_target_bbs rep = length (target_bbs ds)
    /\ rep_bytes_covered rep = size (target_bytes_covered ds)
    /\ rep_coverage_percent rep
       = Pct (Z.of_nat (size (target_bytes_covered ds)))
             (get_text_section_info (dll_path_of local_dll_path target)).2
    /\ rep_exports_hit rep
       = (export_loop exports (target_bbs ds) EXPORT_FUNCTIONS).1
    /\ rep_export_coverage rep = Pct (rep_exports_hit rep) 29
    /\ rep_exports_total rep = 29%nat
    /\ (app_code_coverage exports (target_bbs ds)).2
       = Value (rep_app_coverage_percent rep).
Proof.
  intros Hfind Hrun Htarget Hcount Hsize Hsize_fits Hcode Hcode_fits Hwindow
    ds exports.
  rewrite (parse_drcov_file_target _ _ _ _ _ _ Hfind Hrun Htarget).
  rewrite (analyse_target_outcome _ _ _ _ _ _ Hcount).
  rewrite Hsize_fits, Hcode_fits, !decide_False by done. fold ds exports.
  destruct (app_code_coverage_in_range exports (target_bbs ds) Hwindow)
    as [app_coverage Happ].
  rewrite Happ. eexists. split; [reflexivity|]. by repeat split.
Qed.

(** Extra X16. When the code-section size returned by the section lookup
    is zero and the run reaches the coverage computation with a module
    size within the range of a float, a division by zero raises
    [ZeroDivisionError] and no report is returned. *)
Theorem zero_code_section_raises (content : str) (local_dll_path : option str)
    (text_end : nat) (out out' : list diag) (st : table_state)
    (target : Module) (bb_count : Z) :
  find content BB_MARKER = Some text_end ->
  read_module_table content text_end = (out, Value st) ->
  target_module st = Some target ->
  read_bb_count content text_end = (out', Value bb_count) ->
  float_overflows (mod_size target) = false ->
  (get_text_section_info (dll_path_of local_dll_path target)).2 = 0 ->
  (parse_drcov_file content local_dll_path).2 = Raise ZeroDivisionError.
Proof.
  intros Hfind Hrun Htarget Hcount Hsize_fits Hcode.
  rewrite (parse_drcov_file_target _ _ _ _ _ _ Hfind Hrun Htarget).
  rewrite (analyse_target_outcome _ _ _ _ _ _ Hcount).
  rewrite Hsize_fits, Hcode. case_decide; [done|].
  by rewrite float_overflows_0, decide_True.
Qed.
End report.

Lemma report_when_sizes_nonzero_witness :
  exists rep,
    scenario_run.2 = Value (Some rep)
    /\ rep_total_bbs rep = 1
    /\ rep_target_bbs rep = 1%nat
    /\ rep_bytes_covered rep = 16%nat
    /\ rep_coverage_percent rep = Pct 16 168232.
Proof.
  set (collab := sample_collaborators 168232 [("Aud_InitDll"%string, 256)]).
  assert (find scenario_trace BB_MARKER = Some 104%nat) as Hfind
    by (vm_compute; reflexivity).
  destruct (@read_module_table ascii_builtins scenario_trace 104)
    as [out [st|e]] eqn:Hrun; [|vm_compute in Hrun; discriminate].
  destruct (target_module st) as [target|] eqn:Htarget;
    [|vm_compute in Hrun; injection Hrun as _ <-; discriminate].
  assert (target = mkModule 0 268435456 268566528 131072
                     (lit "C:\lib\target.dll")) as Htarget_eq.
  { vm_compute in Hrun. injection Hrun as _ <-.
    injection Htarget as <-. reflexivity. }
  destruct (@read_bb_count ascii_builtins scenario_trace 104)
    as [out' [bb_count|e]] eqn:Hcount; [|vm_compute in Hcount; discriminate].
  assert (bb_count = 1) as Hbb
    by (vm_compute in Hcount; by injection Hcount as _ <-).
  assert (mod_size target <> 0) as Hsize by (by rewrite Htarget_eq).
  assert (float_overflows (mod_size target) = false) as Hsize_fits
    by (rewrite Htarget_eq; reflexivity).
  assert ((@get_text_section_info collab (dll_path_of None target)).2 <> 0)
    as Hcode by (by simpl).
  assert (forall lo hi,
            export_window (@get_export_addresses collab (dll_path_of None target))
              = Some (lo, hi) ->
            float_overflows (hi - lo) = false) as Hwindow.
  { intros lo hi. simpl. by intros [= <- <-]. }
  destruct (@report_when_sizes_nonzero ascii_builtins collab scenario_trace
              None 104 out out' st target bb_count
              Hfind Hrun Htarget Hcount Hsize Hsize_fits Hcode eq_refl Hwindow)
    as (rep & Hrep & _ & Htotal & Hbbs & Hbytes & Hpct & _).
  exists rep. split; [exact Hrep|].
  rewrite Htotal, Hbbs, Hbytes, Hpct, Hbb, Htarget_eq.
  repeat split; vm_compute; reflexivity.
Defined.

Lemma zero_code_section_raises_witness :
  (@parse_drcov_file ascii_builtins (sample_collaborators 0 [])
     scenario_trace None).2
  = Raise ZeroDivisionError.
Proof.
  set (collab := sample_collaborators 0 []).
  assert (find scenario_trace BB_MARKER = Some 104%nat) as Hfind
    by (vm_compute; reflexivity).
  destruct (@read_module_table ascii_builtins scenario_trace 104)
    as [out [st|e]] eqn:Hrun; [|vm_compute in Hrun; discriminate].
  destruct (target_module st) as [target|] eqn:Htarget;
    [|vm_compute in Hrun; injection Hrun as _ <-; discriminate].
  destruct (@read_bb_count ascii_builtins scenario_trace 104)
    as [out' [bb_count|e]] eqn:Hcount; [|vm_compute in Hcount; discriminate].
  assert (float_overflows (mod_size target) = false) as Hsize_fits.
  { vm_compute in Hrun. injection Hrun as _ <-.
    injection Htarget as <-. reflexivity. }
  apply (@zero_code_section_raises ascii_builtins collab scenario_trace
           None 104 out out' st target bb_count
           Hfind Hrun Htarget Hcount Hsize_fits).
  reflexivity.
Defined.

(** ** The section and export lookups *)

Lemma elem_of_dict_set exports name addr k v :
  (k, v) ∈ dict_set exports name addr ->
  (k, v) ∈ exports \/ (k = name /\ v = addr).
Proof.
  induction exports as [|[k' v'] rest IH]; simpl.
  - intros [= -> ->]%list_elem_of_singleton. by right.
  - case_decide as Hk.
    + intros [[= -> ->]|Hin]%elem_of_cons; [by right|].
      left. by apply list_elem_of_further.
    + intros [[= -> ->]|Hin]%elem_of_cons; [left; apply list_elem_of_here|].
      destruct (IH Hin) as [?|?]; [left|by right].
      by apply list_elem_of_further.
Qed.

Lemma dict_set_keys exports name addr :
  map fst (dict_set exports name addr)
  = if decide (name ∈ map fst exports) then map fst exports
    else map fst exports ++ [name].
Proof.
  induction exports as [|[k v] rest IH]; [done|].
  cbn [dict_set]. destruct (decide (k = name)) as [->|Hk].
  - cbn [map fst]. by rewrite decide_True by apply list_elem_of_here.
  - cbn [map fst]. rewrite IH.
    destruct (decide (name ∈ map fst rest)) as [Hin|Hnin].
    + by rewrite decide_True by (by apply list_elem_of_further).
    + rewrite decide_False; [done|].
      intros [?|?]%elem_of_cons; [by subst|done].
Qed.

Lemma dict_set_NoDup exports name addr :
  NoDup (map fst exports) -> NoDup (map fst (dict_set exports name addr)).
Proof.
  intros Hnd. rewrite dict_set_keys. case_decide as Hin; [done|].
  apply NoDup_app. split; [done|]. split; [|apply NoDup_singleton].
  intros k Hk ->%list_elem_of_singleton. done.
Qed.

Lemma dict_set_fresh exports name addr :
  name ∉ map fst exports -> dict_set exports name addr = exports ++ [(name, addr)].
Proof.
  induction exports as [|[k v] rest IH]; [done|].
  cbn [map fst]. intros [Hne Hnin]%not_elem_of_cons.
  cbn [dict_set]. rewrite decide_False by done. by rewrite IH.
Qed.

Section objdump_lookups.
Context `{!TextBuiltins}.

Lemma text_section_scan_skip before rest :
  Forall not_text_line before ->
  text_section_scan (before ++ rest) = text_section_scan rest.
Proof.
  induction 1 as [|line before Hline _ IH]; [done|].
  cbn [app text_section_scan]. destruct Hline as [-> | Hlen]; [done|].
  destruct (contains line (lit ".text")); [|done].
  by rewrite bool_decide_eq_false_2 by lia.
Qed.

(** Extra X17. The section lookup falls back to [(0, 168232)]: with a
    warning when [objdump] cannot be run, and silently when its output has
    no line that mentions [.text] and has four words or more. *)
Theorem text_info_fallback (od : Objdump) (dll_path : str) :
  (objdump_h od dll_path = None ->
   text_section_info od dll_path = ([WarnTextInfo], (0, 168232)))
  /\ (forall stdout,
        objdump_h od dll_path = Some stdout ->
        Forall not_text_line (split stdout [newline]) ->
        text_section_info od dll_path = ([], (0, 168232))).
Proof.
  unfold text_section_info. split.
  - by intros ->.
  - intros stdout -> Hlines.
    rewrite <- (app_nil_r (split stdout [newline])).
    by rewrite (text_section_scan_skip _ [] Hlines).
Qed.

(** Extra X18. The first line of the output that mentions [.text] and
    has four words or more decides the result: its fourth word, read in
    base 16, is the start address and its third word the size, returned in
    that order; when either is not a hexadecimal number the lookup warns
    and falls back; the lines after it are never looked at. *)
Theorem text_info_first_text_line (od : Objdump) (dll_path stdout : str)
    (before after : list str) (line size_hex vma_hex : str) :
  objdump_h od dll_path = Some stdout ->
  split stdout [newline] = before ++ line :: after ->
  Forall not_text_line before ->
  contains line (lit ".text") = true ->
  py_words line !! 2%nat = Some size_hex ->
  py_words line !! 3%nat = Some vma_hex ->
  text_section_info od dll_path
  = match py_int 16 vma_hex, py_int 16 size_hex with
    | Some vma, Some size => ([], (vma, size))
    | _, _ => ([WarnTextInfo], (0, 168232))
    end.
Proof.
  intros Hout Hlines Hbefore Htext Hsize Hvma.
  unfold text_section_info. rewrite Hout, Hlines.
  rewrite (text_section_scan_skip _ _ Hbefore).
  cbn [text_section_scan]. rewrite Htext.
  apply lookup_lt_Some in Hvma as Hlen.
  rewrite bool_decide_eq_true_2 by lia. rewrite Hsize, Hvma.
  by destruct (py_int 16 vma_hex), (py_int 16 size_hex).
Qed.

Lemma export_scan_before_header before rest exports :
  Forall (fun line => contains line (lit "Export Table:") = false) before ->
  export_scan (before ++ rest) false exports = export_scan rest false exports.
Proof.
  induction 1 as [|line before Hline _ IH]; [done|].
  cbn [app export_scan]. by rewrite Hline.
Qed.

(** Extra X19. Nothing is an export before the table header: when the
    output of [objdump -p] has no line containing ["Export Table:"] the
    dict is empty, without a warning; when [objdump] cannot be run it is
    empty, with a warning. *)
Theorem exports_need_table_header (od : Objdump) (dll_path : str) :
  (objdump_p od dll_path = None ->
   export_addresses od dll_path = ([WarnExports], []))
  /\ (forall stdout,
        objdump_p od dll_path = Some stdout ->
        Forall (fun line => contains line (lit "Export Table:") = false)
               (split stdout [newline]) ->
        export_addresses od dll_path = ([], [])).
Proof.
  unfold export_addresses. split.
  - by intros ->.
  - intros stdout -> Hlines.
    rewrite <- (app_nil_r (split stdout [newline])).
    by rewrite (export_scan_before_header _ [] [] Hlines).
Qed.


Lemma export_entry_sound exports parts k v :
  (k, v) ∈ export_entry exports parts ->
  (k, v) ∈ exports
  \/ exists rva_str name,
       parts !! 1%nat = Some rva_str /\ parts !! 2%nat = Some name
       /\ startswith rva_str (lit "0x") = true
       /\ py_int 16 rva_str = Some v
       /\ contains name (lit "@") = false
       /\ string_of_list_ascii name = k.
Proof.
  unfold export_entry.
  destruct (parts !! 1%nat) as [rva_str|]; [|by left].
  destruct (startswith rva_str (lit "0x")) eqn:H0x; [|by left].
  destruct (py_int 16 rva_str) as [addr|] eqn:Hint; [|by left].
  destruct (parts !! 2%nat) as [name|]; [|by left].
  destruct (contains name (lit "@")) eqn:Hat; [by left|].
  intros [Hin|[-> ->]]%elem_of_dict_set; [by left|].
  right. by exists rva_str, name.
Qed.

Lemma export_entry_NoDup exports parts :
  NoDup (map fst exports) -> NoDup (map fst (export_entry exports parts)).
Proof.
  intros Hnd. unfold export_entry. repeat case_match; try done.
  by apply dict_set_NoDup.
Qed.

Lemma export_scan_sound lines : forall in_table exports,
  NoDup (map fst exports) ->
  NoDup (map fst (export_scan lines in_table exports))
  /\ forall entry, entry ∈ export_scan lines in_table exports ->
       entry ∈ exports \/ from_listing lines entry.
Proof.
  induction lines as [|line lines IH]; intros in_table exports Hnd.
  - simpl. split; [done|]. by left.
  - assert (forall b e, NoDup (map fst e) ->
              NoDup (map fst (export_scan lines b e))
              /\ forall entry, entry ∈ export_scan lines b e ->
                   entry ∈ e \/ from_listing (line :: lines) entry) as IH'.
    { intros b e He. destruct (IH b e He) as [IH1 IH2]. split; [done|].
      intros entry Hentry. destruct (IH2 entry Hentry) as [?|Hfrom]; [by left|].
      right. destruct Hfrom as (l & r & n & Hl & Hrest).
      exists l, r, n. split; [by apply list_elem_of_further|done]. }
    cbn [export_scan].
    destruct (contains line (lit "Export Table:")) eqn:Hhdr; [by apply IH'|].
    destruct in_table; [|by apply IH'].
    destruct (is_listing_header line) eqn:Hlist; [by apply IH'|].
    case_bool_decide; [split; [done|by left]|].
    case_bool_decide; [|by apply IH'].
    destruct (IH' true (export_entry exports (py_words line))
                (export_entry_NoDup _ _ Hnd)) as [IH1 IH2].
    split; [done|].
    intros [k v] Hentry. destruct (IH2 _ Hentry) as [Hin|?]; [|by right].
    apply export_entry_sound in Hin
      as [?|(r & n & Hw1 & Hw2 & H0x & Hint & Hat & Hname)]; [by left|].
    right. exists line, r, n. split; [apply list_elem_of_here|]. done.
Qed.

(** Extra X20. Whatever [objdump -p] prints, the dict of exports has no
    name twice and no decorated name (none contains ["@"]), and each of
    its entries is accounted for by a line of the output whose second word
    is an RVA written [0x...] with the entry's value and whose third word
    is the entry's name. *)
Theorem exports_come_from_listing (od : Objdump) (dll_path : str) :
  let exports := (export_addresses od dll_path).2 in
  NoDup (map fst exports)
  /\ forall name addr, (name, addr) ∈ exports ->
       (forall n, string_of_list_ascii n = name -> contains n (lit "@") = false)
       /\ exists stdout,
            objdump_p od dll_path = Some stdout
            /\ from_listing (split stdout [newline]) (name, addr).
Proof.
  unfold export_addresses.
  destruct (objdump_p od dll_path) as [stdout|]; simpl.
  - destruct (export_scan_sound (split stdout [newline]) false [])
      as [Hnd Hfrom]; [constructor|].
    split; [done|]. intros name addr Hin.
    destruct (Hfrom _ Hin) as [Hnil|Hl]; [by apply elem_of_nil in Hnil|].
    split; [|eauto].
    destruct Hl as (l & r & n' & _ & _ & _ & _ & _ & _ & _ & Hat & Hname).
    intros n Hn. simpl in Hname. rewrite <- Hname in Hn.
    apply (f_equal list_ascii_of_string) in Hn.
    rewrite !list_ascii_of_string_of_list_ascii in Hn. by subst.
  - split; [constructor|]. by intros name addr ?%elem_of_nil.
Qed.

Lemma export_scan_blank before blank after exports :
  is_blank_line blank ->
  export_scan (before ++ blank :: after) true exports
  = export_scan before true exports.
Proof.
  intros (Hhdr & Hlist & Hstrip). revert exports.
  induction before as [|line before IH]; intros exports.
  - cbn [app export_scan]. rewrite Hhdr, Hlist.
    by rewrite bool_decide_eq_true_2.
  - cbn [app export_scan]. repeat case_match; try done; apply IH.
Qed.

Lemma export_scan_same_tail before rest rest' : forall in_table exports,
  (forall e, export_scan rest true e = export_scan rest' true e) ->
  (in_table = true
   \/ exists line, line ∈ before /\ contains line (lit "Export Table:") = true) ->
  export_scan (before ++ rest) in_table exports
  = export_scan (before ++ rest') in_table exports.
Proof.
  intros in_table exports Hrest. revert in_table exports.
  induction before as [|line before IH]; intros in_table exports Hflag.
  - destruct Hflag as [->|(l & Hl & _)]; [apply Hrest|].
    by apply elem_of_nil in Hl.
  - cbn [app export_scan].
    destruct (contains line (lit "Export Table:")) eqn:Hhdr.
    + apply IH. by left.
    + assert (in_table = true
              \/ exists l, l ∈ before
                           /\ contains l (lit "Export Table:") = true) as Hflag'.
      { destruct Hflag as [?|(l & Hl & Hc)]; [by left|]. right.
        apply elem_of_cons in Hl as [->|Hl]; [congruence|eauto]. }
      repeat case_match; try done; by apply IH.
Qed.

(** Extra X21. The listing ends at the first blank line after the table
    header: whatever follows that line, further entries and further table
    headers included, does not change the dict. *)
Theorem exports_stop_at_blank_line (od : Objdump) (dll_path stdout : str)
    (before after : list str) (blank : str) :
  objdump_p od dll_path = Some stdout ->
  split stdout [newline] = before ++ blank :: after ->
  (exists header, header ∈ before
                  /\ contains header (lit "Export Table:") = true) ->
  is_blank_line blank ->
  (export_addresses od dll_path).2 = export_scan before false [].
Proof.
  intros Hout Hlines Hheader Hblank.
  unfold export_addresses. rewrite Hout, Hlines. simpl.
  rewrite <- (app_nil_r before) at 2.
  apply export_scan_same_tail; [|by right].
  intros e. by apply (export_scan_blank [] blank after e).
Qed.

Lemma export_scan_listing lines table : forall rest exports,
  listing lines table ->
  export_scan (lines ++ rest) true exports
  = export_scan rest true
      (foldl (fun e entry => dict_set e entry.1 entry.2) exports table).
Proof.
  intros rest exports Hall. revert exports.
  induction Hall as [|line [name addr] lines table Hline _ IH
                     |line lines table Hline _ IH]; intros exports.
  - done.
  - destruct Hline as (Hhdr & Hlist & Hstrip & rva_str & nm & Hw1 & Hw2
                       & H0x & Hint & Hat & Hname).
    cbn [app export_scan foldl]. rewrite Hhdr, Hlist.
    rewrite bool_decide_eq_false_2 by done.
    apply lookup_lt_Some in Hw2 as Hlen.
    rewrite bool_decide_eq_true_2 by lia.
    unfold export_entry. rewrite Hw1, H0x, Hint, Hw2, Hat, Hname.
    apply IH.
  - destruct Hline as (Hhdr & Hskip).
    cbn [app export_scan]. rewrite Hhdr.
    destruct Hskip as [->|(Hstrip & Hskip)]; [apply IH|].
    destruct (is_listing_header line); [apply IH|].
    rewrite bool_decide_eq_false_2 by done.
    case_bool_decide as Hlen; [|apply IH].
    assert (export_entry exports (py_words line) = exports) as ->; [|apply IH].
    unfold export_entry.
    destruct Hskip as [Hlt|[(rva & -> & Hrva)|(nm & Hnm & Hat)]]; [lia| |].
    + destruct Hrva as [-> | Hint]; [done|].
      rewrite Hint. by destruct (startswith rva (lit "0x")).
    + rewrite Hnm, Hat. repeat case_match; done.
Qed.

Lemma foldl_dict_set_fresh table : forall exports,
  NoDup (map fst exports ++ map fst table) ->
  foldl (fun e entry => dict_set e entry.1 entry.2) exports table
  = exports ++ table.
Proof.
  induction table as [|[name addr] table IH]; intros exports Hnd.
  - by rewrite app_nil_r.
  - cbn [foldl fst snd map] in *.
    apply NoDup_app in Hnd as Hnd'. destruct Hnd' as (_ & Hdisj & _).
    rewrite dict_set_fresh.
    + rewrite IH; [by rewrite <- (assoc_L (++))|].
      rewrite map_app. cbn [map fst]. by rewrite <- (assoc_L (++)).
    + intros Hin. apply (Hdisj name Hin). apply list_elem_of_here.
Qed.

(** Extra X22. A listing read back: when the output has no table header
    before its header line, then lines that spell a table with distinct
    names (one line per entry: an ordinal, the RVA written [0x...], the
    undecorated name; header lines of the listing, short lines and lines
    with a decorated name in between contribute nothing), then nothing or
    a blank line and anything at all, the dict is that table, in the order
    of the lines. *)
Theorem exports_read_back (od : Objdump) (dll_path stdout : str)
    (before entries rest : list str) (header : str)
    (table : list (string * Z)) :
  objdump_p od dll_path = Some stdout ->
  split stdout [newline] = before ++ header :: entries ++ rest ->
  Forall (fun line => contains line (lit "Export Table:") = false) before ->
  contains header (lit "Export Table:") = true ->
  listing entries table ->
  NoDup (map fst table) ->
  rest = [] \/ (exists blank after, rest = blank :: after /\ is_blank_line blank) ->
  export_addresses od dll_path = ([], table).
Proof.
  intros Hout Hlines Hbefore Hheader Hentries Hnd Hrest.
  unfold export_addresses. rewrite Hout, Hlines. f_equal.
  rewrite (export_scan_before_header _ _ _ Hbefore).
  cbn [export_scan]. rewrite Hheader.
  rewrite (export_scan_listing _ _ _ _ Hentries).
  rewrite foldl_dict_set_fresh by done. cbn [app].
  destruct Hrest as [->|(blank & after & -> & Hblank)]; [done|].
  exact (export_scan_blank [] blank after table Hblank).
Qed.
End objdump_lookups.

Lemma text_info_first_text_line_witness :
  @text_section_info ascii_builtins sample_objdump (lit "target.dll")
  = ([], (268439552, 168232)).
Proof.
  apply (@text_info_first_text_line ascii_builtins sample_objdump
           (lit "target.dll") sample_sections
           [lit "target.dll:     file format pei-i386"; [];
            lit "Sections:";
            lit "Idx Name          Size      VMA       LMA       File off  Algn"]
           [lit "  1 .rdata        00007f2e  1002b000  1002b000  00029600  2**2";
            []]
           (lit "  0 .text         00029128  10001000  10001000  00000400  2**4")
           (lit "00029128") (lit "10001000")).
  - reflexivity.
  - vm_compute. reflexivity.
  - repeat constructor; left; vm_compute; reflexivity.
  - vm_compute. reflexivity.
  - vm_compute. reflexivity.
  - vm_compute. reflexivity.
Defined.

Lemma exports_stop_at_blank_line_witness :
  (@export_addresses ascii_builtins sample_objdump (lit "target.dll")).2
  = [("Aud_CloseGetFile"%string, 13760); ("Aud_InitDll"%string, 4096)].
Proof.
  rewrite (@exports_stop_at_blank_line ascii_builtins sample_objdump
             (lit "target.dll") sample_exports
             [lit "The Export Tables (interpreted .edata section contents)";
              []; lit "Export Table:"; lit "DLL name: target.dll";
              lit "Ordinal base: 1"; lit "    Ordinal   RVA  Name";
              lit "       1   0x35c0  Aud_CloseGetFile";
              lit "       2   0x35c0  _Aud_CloseGetFile@4";
              lit "       3   0x1000  Aud_InitDll"]
             [lit "       4   0x2000  Aud_AfterBlank"; []] []).
  - vm_compute. reflexivity.
  - reflexivity.
  - vm_compute. reflexivity.
  - exists (lit "Export Table:"). split; [|vm_compute; reflexivity].
    do 2 apply list_elem_of_further. apply list_elem_of_here.
  - repeat split; vm_compute; reflexivity.
Defined.

Lemma exports_read_back_witness :
  @export_addresses ascii_builtins sample_objdump (lit "target.dll")
  = ([], [("Aud_CloseGetFile"%string, 13760); ("Aud_InitDll"%string, 4096)]).
Proof.
  apply (@exports_read_back ascii_builtins sample_objdump
           (lit "target.dll") sample_exports
           [lit "The Export Tables (interpreted .edata section contents)"; []]
           [lit "DLL name: target.dll";
            lit "Ordinal base: 1"; lit "    Ordinal   RVA  Name";
            lit "       1   0x35c0  Aud_CloseGetFile";
            lit "       2   0x35c0  _Aud_CloseGetFile@4";
            lit "       3   0x1000  Aud_InitDll"]
           [[]; lit "       4   0x2000  Aud_AfterBlank"; []]
           (lit "Export Table:")).
  - reflexivity.
  - vm_compute. reflexivity.
  - repeat constructor.
  - vm_compute. reflexivity.
  - apply listing_skip; [split; [reflexivity|left; vm_compute; reflexivity]|].
    apply listing_skip; [split; [reflexivity|left; vm_compute; reflexivity]|].
    apply listing_skip; [split; [reflexivity|left; vm_compute; reflexivity]|].
    apply listing_entry.
    { split; [reflexivity|]. split; [vm_compute; reflexivity|].
      split; [vm_compute; discriminate|].
      exists (lit "0x35c0"), (lit "Aud_CloseGetFile").
      repeat split; vm_compute; reflexivity. }
    apply listing_skip.
    { split; [reflexivity|]. right. split; [vm_compute; discriminate|].
      right. right. exists (lit "_Aud_CloseGetFile@4").
      split; vm_compute; reflexivity. }
    apply listing_entry; [|apply listing_nil].
    split; [reflexivity|]. split; [vm_compute; reflexivity|].
    split; [vm_compute; discriminate|].
    exists (lit "0x1000"), (lit "Aud_InitDll").
    repeat split; vm_compute; reflexivity.
  - repeat constructor; vm_compute; try discriminate.
    all: intros H; repeat (apply elem_of_cons in H as [H|H]; [discriminate|]);
      by apply elem_of_nil in H.
  - right. exists [], [lit "       4   0x2000  Aud_AfterBlank"; []].
    split; [reflexivity|]. repeat split; vm_compute; reflexivity.
Defined.

(** ** The analysis without [objdump] *)

Lemma fallback_size_fits : float_overflows TEXT_INFO_FALLBACK.2 = false.
Proof. reflexivity. Qed.

Section degraded_mode.
Context `{!TextBuiltins}.

(** Extra X23. When [objdump] cannot be run at all, the analysis still
    returns a report, for a target module whose size is not zero and is
    within the range of a float: coverage is computed against the fallback
    code size 168232, no export is hit out of the 29 expected, and the
    application coverage is the constant 0 of the empty export table. *)
Theorem report_without_objdump (od : Objdump) (content : str)
    (local_dll_path : option str) (text_end : nat) (out out' : list diag)
    (st : table_state) (target : Module) (bb_count : Z) :
  find content BB_MARKER = Some text_end ->
  read_module_table content text_end = (out, Value st) ->
  target_module st = Some target ->
  read_bb_count content text_end = (out', Value bb_count) ->
  mod_size target <> 0 ->
  float_overflows (mod_size target) = false ->
  objdump_h od (dll_path_of local_dll_path target) = None ->
  objdump_p od (dll_path_of local_dll_path target) = None ->
  let ds := decode (drop (bb_header_end content text_end) content) bb_count
              (mod_id target) in
  exists rep,
    (@parse_drcov_file _ (objdump_collaborators od) content local_dll_path).2
      = Value (Some rep)
    /\ rep_bytes_covered rep = size (target_bytes_covered ds)
    /\ rep_coverage_percent rep
       = Pct (Z.of_nat (size (target_bytes_covered ds))) 168232
    /\ rep_exports_hit rep = 0
    /\ rep_export_coverage rep = Pct 0 29
    /\ rep_app_coverage_percent rep = PctZero.
Proof.
  intros Hfind Hrun Htarget Hcount Hsize Hsize_fits Hh Hp ds.
  rewrite (@parse_drcov_file_target _ (objdump_collaborators od)
             _ _ _ _ _ _ Hfind Hrun Htarget).
  rewrite (@analyse_target_outcome _ (objdump_collaborators od)
             _ _ _ _ _ _ Hcount).
  cbn [get_text_section_info get_export_addresses objdump_collaborators].
  unfold text_section_info, export_addresses. rewrite Hh, Hp. cbn [snd].
  rewrite Hsize_fits, decide_False by done.
  rewrite fallback_size_fits.
  rewrite decide_False by (unfold TEXT_INFO_FALLBACK; simpl; lia).
  fold ds. unfold export_loop. rewrite export_loop_fold. cbn [app fst].
  rewrite (filter_none (fun f => export_status_of [] (target_bbs ds) f = Hit))
    by done.
  eexists. split; [reflexivity|]. by repeat split.
Qed.
End degraded_mode.

Lemma report_without_objdump_witness :
  exists rep,
    (@parse_drcov_file ascii_builtins
       (@objdump_collaborators ascii_builtins no_objdump)
       scenario_trace None).2 = Value (Some rep)
    /\ rep_coverage_percent rep = Pct 16 168232
    /\ rep_exports_hit rep = 0
    /\ rep_app_coverage_percent rep = PctZero.
Proof.
  assert (find scenario_trace BB_MARKER = Some 104%nat) as Hfind
    by (vm_compute; reflexivity).
  destruct (@read_module_table ascii_builtins scenario_trace 104)
    as [out [st|e]] eqn:Hrun; [|vm_compute in Hrun; discriminate].
  destruct (target_module st) as [target|] eqn:Htarget;
    [|vm_compute in Hrun; injection Hrun as _ <-; discriminate].
  assert (target = mkModule 0 268435456 268566528 131072
                     (lit "C:\lib\target.dll")) as Htarget_eq.
  { vm_compute in Hrun. injection Hrun as _ <-.
    injection Htarget as <-. reflexivity. }
  destruct (@read_bb_count ascii_builtins scenario_trace 104)
    as [out' [bb_count|e]] eqn:Hcount; [|vm_compute in Hcount; discriminate].
  assert (bb_count = 1) as Hbb
    by (vm_compute in Hcount; by injection Hcount as _ <-).
  assert (mod_size target <> 0) as Hsize by (by rewrite Htarget_eq).
  assert (float_overflows (mod_size target) = false) as Hsize_fits
    by (rewrite Htarget_eq; reflexivity).
  destruct (@report_without_objdump ascii_builtins no_objdump scenario_trace
              None 104 out out' st target bb_count
              Hfind Hrun Htarget Hcount Hsize Hsize_fits eq_refl eq_refl)
    as (rep & Hrep & _ & Hpct & Hhit & _ & Happ).
  exists rep. split; [exact Hrep|].
  rewrite Hpct, Hhit, Happ, Hbb, Htarget_eq.
  split; [vm_compute; reflexivity|]. split; reflexivity.
Defined.

(** ** Sizes beyond the range of a float *)

Section float_range.
Context `{!TextBuiltins} `{!Collaborators}.


End float_range.


